(** * Code recovery in OCR'd catalogue pages: [prototipo5.py]

    A shallow embedding of the recovery core of [prototipo5.py]
    ([list_substitutions], [expand_with_substitutions], [search_codes])
    and the properties of it that the specification states.

    Python values are modelled as follows.
    - [str] is [string]; a character is an [ascii].
    - [str | None] (what [match.group(1)] evaluates to) is [option string].
    - a [set] is a [gset] and a [dict] a [gmap]; iterating a set visits
      its [elements], and [texts.keys()] the [elements] of the domain.
      The order of a visit does not show in a set or a dictionary that
      is built from it.
    - an exception is the [Raise] branch of [result]: the first
      statement that raises ends the call. *)

From Stdlib Require Import Ascii String.
From stdpp Require Import gmap strings list fin_maps fin_sets pretty.

Open Scope string_scope.
Open Scope list_scope.

(** ** Exceptions *)

Inductive exn : Type :=
  | re_error      (* re.error: the pattern does not compile *)
  | IndexError    (* match.group(n): no such group *)
  | TypeError.    (* iterating over None *)

Inductive result (A : Type) : Type :=
  | Ok (a : A)
  | Raise (e : exn).
Arguments Ok {A} a.
Arguments Raise {A} e.

#[global] Instance result_ret : MRet result := fun A a => Ok a.
#[global] Instance result_bind : MBind result := fun A B f m =>
  match m with
  | Ok a => f a
  | Raise e => Raise e
  end.

(** ** [itertools.product] and [str.join] *)

(** [itertools.product] of the pools: the tuples in lexicographic order,
    the rightmost pool advancing fastest. *)
Fixpoint product {A} (pools : list (list A)) : list (list A) :=
  match pools with
  | [] => [[]]
  | pool :: rest => x ← pool; cons x <$> product rest
  end.

(** [join] of the empty separator over a tuple of one-character strings. *)
Definition join (sub : list ascii) : string := string_of_list_ascii sub.

(** ** [list_substitutions] *)

(** The substitution dictionary, "dict of str": a character is sent to
    the string of the characters it may stand for.  The dictionary is
    only read at the single characters of a token, so its keys are
    characters here. *)
Abbreviation substitutions_t := (gmap ascii string).

(** [substitutions[c] if c in substitutions else c] *)
Definition sub_choice (substitutions : substitutions_t) (c : ascii) : string :=
  match substitutions !! c with
  | Some v => v
  | None => String c EmptyString
  end.

Definition sub_space (st : string) (substitutions : substitutions_t)
  : list string :=
  sub_choice substitutions <$> list_ascii_of_string st.

Definition list_substitutions (st : string) (substitutions : substitutions_t)
  : list string :=
  join <$> product (list_ascii_of_string <$> sub_space st substitutions).

(** ** [expand_with_substitutions] *)

(** A value that is a [str] or [None]. *)
Abbreviation pyval := (option string).

(** [for c in st] on a value that may be [None]. *)
Definition iter_str (code : pyval) : result string :=
  match code with
  | Some st => Ok st
  | None => Raise TypeError
  end.

(** The loop of [expand_with_substitutions], [extended_codes] being the
    accumulator that [extend] grows. *)
Fixpoint expand_loop (codes : list pyval)
    (substitutions : substitutions_t) (extended_codes : list string)
  : result (list string) :=
  match codes with
  | [] => Ok extended_codes
  | code :: rest =>
      st ← iter_str code;
      expand_loop rest substitutions
        (extended_codes ++ list_substitutions st substitutions)
  end.

Definition expand_with_substitutions (codes : list pyval)
    (substitutions : substitutions_t) : result (list string) :=
  expand_loop codes substitutions [].


(** ** The [re] module

    [search_codes] uses the regular-expression engine through
    [re.finditer] and [match.group] only.  The engine is an interface:
    a pattern string compiles or not, and a compiled pattern yields the
    match objects of the non-overlapping matches of a text, from left
    to right. *)

(** A match object: the value of every group, group 0 (the whole match)
    first; a group that took no part in the match is [None]. *)
Record Match : Type := { groups : list pyval }.

(** [match.group(n)] *)
Definition group (m : Match) (n : nat) : result pyval :=
  match groups m !! n with
  | Some v => Ok v
  | None => Raise IndexError
  end.

Class Re : Type := {
  pattern : Type;
  re_compile : string → option pattern;
  pattern_finditer : pattern → string → list Match
}.

(** [re.finditer(pat, text)]: the pattern is compiled before the text is
    looked at. *)
Definition finditer {re : Re} (pat text : string) : result (list Match) :=
  match re_compile pat with
  | None => Raise re_error
  | Some p => Ok (pattern_finditer p text)
  end.

(** ** [search_codes] *)

Inductive search_result (K : Type) `{Countable K} : Type :=
  | Found (codes_found : gmap K (gset pyval))
  | FoundTentative (codes_found tentative_codes : gmap K (gset pyval)).
Arguments Found {K _ _} codes_found.
Arguments FoundTentative {K _ _} codes_found tentative_codes.

Section search_codes.
Context {re : Re} `{Countable K}.

Definition search_pattern_of (code_header code_pattern : string) : string :=
  code_header +:+ "(" +:+ code_pattern +:+ ")".

(** [{match.group(1) for match in matches}] *)
Fixpoint group1_set (matches : list Match) (acc : gset pyval)
  : result (gset pyval) :=
  match matches with
  | [] => Ok acc
  | m :: rest => v ← group m 1; group1_set rest ({[v]} ∪ acc)
  end.

(** The body of the loop over the pages, on the two dictionaries that
    it fills: the matches of the page, the set of their group 1 under
    [tentative_codes[page]], the expanded set in its place when there
    are substitutions, and under [codes_found[page]] what of
    [tentative_codes[page]] is in [valid_codes].  The sets are Python
    sets of any values, compared by equality; a catalogue that
    [load_codes] reads holds strings only. *)
Definition search_page (texts : gmap K string) (valid_codes : gset pyval)
    (search_pattern : string) (substitutions : option substitutions_t)
    (page : K) (tentative_codes codes_found : gmap K (gset pyval))
  : result (gmap K (gset pyval) * gmap K (gset pyval)) :=
  matches ← finditer search_pattern (texts !!! page);
  raw ← group1_set matches ∅;
  let tentative_codes := <[page := raw]> tentative_codes in
  tentative_codes ←
    match substitutions with
    | Some substitutions =>
        extended ← expand_with_substitutions
                     (elements (tentative_codes !!! page)) substitutions;
        mret (<[page := list_to_set (Some <$> extended)]> tentative_codes)
    | None => mret tentative_codes
    end;
  let codes_found :=
    <[page := (tentative_codes !!! page) ∩ valid_codes]> codes_found in
  mret (tentative_codes, codes_found).

Fixpoint search_loop (texts : gmap K string) (valid_codes : gset pyval)
    (search_pattern : string) (substitutions : option substitutions_t)
    (pages : list K) (tentative_codes codes_found : gmap K (gset pyval))
  : result (gmap K (gset pyval) * gmap K (gset pyval)) :=
  match pages with
  | [] => Ok (tentative_codes, codes_found)
  | page :: rest =>
      '(tentative_codes, codes_found) ←
        search_page texts valid_codes search_pattern substitutions
          page tentative_codes codes_found;
      search_loop texts valid_codes search_pattern substitutions
        rest tentative_codes codes_found
  end.

(** [texts.keys()] *)
Definition keys (texts : gmap K string) : list K := elements (dom texts).

Definition search_codes (texts : gmap K string) (valid_codes : gset pyval)
    (code_pattern code_header : string) (show_tentative : bool)
    (substitutions : option substitutions_t) : result (search_result K) :=
  let search_pattern := search_pattern_of code_header code_pattern in
  '(tentative_codes, codes_found) ←
    search_loop texts valid_codes search_pattern substitutions
      (keys texts) ∅ ∅;
  if show_tentative then mret (FoundTentative codes_found tentative_codes)
  else mret (Found codes_found).

End search_codes.

(** ** A regular-expression engine

    An instance of [Re] for the scenarios: a backtracking matcher for a
    fragment of the pattern language of Python's [re], on ASCII text.
    The fragment has literals, [.], the classes [\d \D \s \S \w \W],
    the escapes [\n \t \r \f \v \a] and escaped punctuation, sets
    [[...]] with ranges and negation, capturing groups, alternation and
    the greedy repeats [* + ? {m} {m,} {,n} {m,n}].  Anchors, look-around,
    back-references, lazy and possessive repeats and the [(?...)]
    extensions are outside the fragment, and this instance does not
    compile them. *)

Module Sre.

#[local] Open Scope nat_scope.
#[local] Open Scope list_scope.

Inductive item : Type :=
  | Literal (c : ascii)
  | Range (lo hi : ascii)
  | Category (negate : bool) (cat : ascii).   (* cat is d, s or w *)

Inductive regex : Type :=
  | Empty
  | In (negate : bool) (set : list item)
  | Cat (r1 r2 : regex)
  | Branch (r1 r2 : regex)
  | Subpattern (g : nat) (r : regex)
  | MaxRepeat (lo : nat) (hi : option nat) (r : regex).

(** *** Characters *)

Definition ord (c : ascii) : N := N_of_ascii c.

Definition between (lo hi c : N) : bool := ((lo <=? c) && (c <=? hi))%N.

Definition is_digit (c : ascii) : bool := between 48 57 (ord c).

Definition is_space (c : ascii) : bool :=
  between 9 13 (ord c) || between 28 32 (ord c).

Definition is_letter (c : ascii) : bool :=
  between 65 90 (ord c) || between 97 122 (ord c).

Definition is_word (c : ascii) : bool :=
  is_letter c || is_digit c || (ord c =? 95)%N.

Definition in_category (cat c : ascii) : bool :=
  if (ord cat =? 100)%N then is_digit c            (* d *)
  else if (ord cat =? 115)%N then is_space c       (* s *)
  else is_word c.                                  (* w *)

Definition item_matches (i : item) (c : ascii) : bool :=
  match i with
  | Literal x => (ord x =? ord c)%N
  | Range lo hi => between (ord lo) (ord hi) (ord c)
  | Category negate cat => xorb negate (in_category cat c)
  end.

Definition set_matches (negate : bool) (set : list item) (c : ascii) : bool :=
  xorb negate (existsb (fun i => item_matches i c) set).

(** *** Matching *)

Abbreviation captures := (list (option (list ascii))).

(** [exec r s caps k]: match [r] at the head of [s], then go on with
    [k] on what is left of [s]; the first success in the order of a
    backtracking search is returned.  A greedy repeat tries one more
    turn of its body before it tries what follows, and a turn that
    starts where the turn before it started is not tried once the
    lower bound is met. *)
Fixpoint exec {X} (r : regex) (s : list ascii) (caps : captures)
    (k : list ascii → captures → option X) {struct r} : option X :=
  match r with
  | Empty => k s caps
  | In negate set =>
      match s with
      | c :: s' => if set_matches negate set c then k s' caps else None
      | [] => None
      end
  | Cat r1 r2 => exec r1 s caps (fun s' caps' => exec r2 s' caps' k)
  | Branch r1 r2 =>
      match exec r1 s caps k with
      | Some x => Some x
      | None => exec r2 s caps k
      end
  | Subpattern g r1 =>
      exec r1 s caps (fun s' caps' =>
        k s' (<[pred g := Some (take (length s - length s') s)]> caps'))
  | MaxRepeat lo hi r1 =>
      (fix turn (fuel count : nat) (last : option nat)
           (s : list ascii) (caps : captures) {struct fuel} : option X :=
         match fuel with
         | 0 => None
         | S fuel =>
             let below_max :=
               match hi with Some n => count <? n | None => true end in
             let moved :=
               match last with
               | Some n => negb (n =? length s)
               | None => true
               end in
             let again :=
               if below_max && ((count <? lo) || moved)
               then exec r1 s caps (fun s' caps' =>
                      turn fuel (S count) (Some (length s)) s' caps')
               else None in
             match again with
             | Some x => Some x
             | None => if lo <=? count then k s caps else None
             end
         end) (lo + 2 * length s + 2) 0 None s caps
  end.

(** One attempt of the search at the head of [s]; with [must_advance]
    an empty match is not accepted. *)
Definition match_at (r : regex) (ngroups : nat) (s : list ascii)
    (must_advance : bool) : option (list ascii * captures) :=
  exec r s (replicate ngroups None) (fun s' caps =>
    if must_advance && (length s' =? length s) then None
    else Some (s', caps)).

Definition match_object (s s' : list ascii) (caps : captures) : Match :=
  {| groups := Some (string_of_list_ascii (take (length s - length s') s))
               :: map (fmap string_of_list_ascii) caps |}.

(** The matches from left to right.  The search for the next match
    starts where the last one ended, and right after an empty match
    the match at that place must not be empty again. *)
Fixpoint scan (fuel : nat) (r : regex) (ngroups : nat) (s : list ascii)
    (must_advance : bool) : list Match :=
  match fuel with
  | 0 => []
  | S fuel =>
      match match_at r ngroups s must_advance with
      | Some (s', caps) =>
          match_object s s' caps
          :: scan fuel r ngroups s' (length s' =? length s)
      | None =>
          match s with
          | [] => []
          | _ :: s1 => scan fuel r ngroups s1 false
          end
      end
  end.

(** *** Parsing *)

Definition one_of (x : string) (c : ascii) : bool :=
  existsb (Ascii.eqb c) (list_ascii_of_string x).

(** The rest of the source when it starts with [c]. *)
Definition sourcematch (c : string) (s : list ascii) : option (list ascii) :=
  match s with
  | x :: s' => if one_of c x then Some s' else None
  | [] => None
  end.

(** The decimal number at the head of the source, when there is one. *)
Fixpoint digits (s : list ascii) (acc : option nat)
  : option nat * list ascii :=
  match s with
  | c :: s' =>
      if is_digit c
      then digits s' (Some (10 * default 0 acc + (N.to_nat (ord c) - 48)))
      else (acc, s)
  | [] => (acc, s)
  end.

Inductive repeat : Type :=
  | NoRepeat                  (* what follows is not a repeat *)
  | BadRepeat                 (* min repeat greater than max repeat *)
  | Repeat (lo : nat) (hi : option nat) (rest : list ascii).

(** The source after an opening brace: a repeat when it reads
    [m}], [m,}], [,n}] or [m,n}], and else the brace is a literal. *)
Definition brace_repeat (s : list ascii) : repeat :=
  match sourcematch "}" s with
  | Some _ => NoRepeat
  | None =>
      let '(lo, s1) := digits s None in
      let '(hi, s2) :=
        match sourcematch "," s1 with
        | Some s1' => digits s1' None
        | None => (lo, s1)
        end in
      match sourcematch "}" s2 with
      | Some rest =>
          let min := default 0 lo in
          match hi with
          | Some max =>
              if max <? min then BadRepeat else Repeat min (Some max) rest
          | None => Repeat min None rest
          end
      | None => NoRepeat
      end
  end.

Definition repeat_of (s : list ascii) : repeat :=
  match s with
  | c :: s' =>
      if one_of "*" c then Repeat 0 None s'
      else if one_of "+" c then Repeat 1 None s'
      else if one_of "?" c then Repeat 0 (Some 1) s'
      else if one_of "{" c then brace_repeat s'
      else NoRepeat
  | [] => NoRepeat
  end.

Definition chr (n : N) : ascii := ascii_of_N n.

(** The source after a backslash. *)
Definition escape (in_set : bool) (s : list ascii)
  : option (item * list ascii) :=
  match s with
  | [] => None
  | c :: s' =>
      if one_of "dsw" c then Some (Category false c, s')
      else if one_of "D" c then Some (Category true "d"%char, s')
      else if one_of "S" c then Some (Category true "s"%char, s')
      else if one_of "W" c then Some (Category true "w"%char, s')
      else if one_of "a" c then Some (Literal (chr 7), s')
      else if one_of "b" c && in_set then Some (Literal (chr 8), s')
      else if one_of "t" c then Some (Literal (chr 9), s')
      else if one_of "n" c then Some (Literal (chr 10), s')
      else if one_of "v" c then Some (Literal (chr 11), s')
      else if one_of "f" c then Some (Literal (chr 12), s')
      else if one_of "r" c then Some (Literal (chr 13), s')
      else if is_letter c || is_digit c then None
      else Some (Literal c, s')
  end.

(** The source after the opening bracket (and the caret) of a set. *)
Fixpoint parse_set (fuel : nat) (s : list ascii) (set : list item)
  : option (list item * list ascii) :=
  match fuel, s with
  | S fuel, this :: s1 =>
      if one_of "]" this && negb (bool_decide (set = [])) then Some (set, s1)
      else
        '(code1, s2) ←
          (if one_of "\" this then escape true s1 else Some (Literal this, s1));
        match sourcematch "-" s2 with
        | Some (that :: s4) =>
            if one_of "]" that then Some (set ++ [code1; Literal "-"%char], s4)
            else
              '(code2, s5) ←
                (if one_of "\" that then escape true s4
                 else Some (Literal that, s4));
              match code1, code2 with
              | Literal lo, Literal hi =>
                  if (ord hi <? ord lo)%N then None
                  else parse_set fuel s5 (set ++ [Range lo hi])
              | _, _ => None
              end
        | Some [] => None
        | None => parse_set fuel s2 (set ++ [code1])
        end
  | _, _ => None
  end.

(** An alternation, a sequence and one item of a sequence; [g] counts
    the groups opened so far. *)
Fixpoint parse_sub (fuel : nat) (s : list ascii) (g : nat) {struct fuel}
  : option (regex * list ascii * nat) :=
  match fuel with
  | 0 => None
  | S fuel =>
      '(r1, s1, g1) ← parse_seq fuel s g;
      match sourcematch "|" s1 with
      | Some s2 =>
          '(r2, s3, g3) ← parse_sub fuel s2 g1;
          Some (Branch r1 r2, s3, g3)
      | None => Some (r1, s1, g1)
      end
  end
with parse_seq (fuel : nat) (s : list ascii) (g : nat) {struct fuel}
  : option (regex * list ascii * nat) :=
  match fuel with
  | 0 => None
  | S fuel =>
      match s with
      | [] => Some (Empty, s, g)
      | c :: _ =>
          if one_of "|)" c then Some (Empty, s, g)
          else
            '(a, s1, g1) ← parse_atom fuel s g;
            match repeat_of s1 with
            | NoRepeat =>
                '(rest, s3, g3) ← parse_seq fuel s1 g1;
                Some (Cat a rest, s3, g3)
            | BadRepeat => None
            | Repeat lo hi s2 =>
                match repeat_of s2 with
                | NoRepeat =>
                    '(rest, s3, g3) ← parse_seq fuel s2 g1;
                    Some (Cat (MaxRepeat lo hi a) rest, s3, g3)
                | _ => None
                end
            end
      end
  end
with parse_atom (fuel : nat) (s : list ascii) (g : nat) {struct fuel}
  : option (regex * list ascii * nat) :=
  match fuel, s with
  | S fuel, c :: s1 =>
      if one_of "\" c then
        '(i, s2) ← escape false s1; Some (In false [i], s2, g)
      else if one_of "[" c then
        let '(negate, s2) :=
          match sourcematch "^" s1 with
          | Some s2 => (true, s2)
          | None => (false, s1)
          end in
        '(set, s3) ← parse_set (S (length s2)) s2 [];
        Some (In negate set, s3, g)
      else if one_of "(" c then
        match sourcematch "?" s1 with
        | Some _ => None
        | None =>
            '(r, s2, g2) ← parse_sub fuel s1 (S g);
            s3 ← sourcematch ")" s2;
            Some (Subpattern (S g) r, s3, g2)
        end
      else if one_of "." c then Some (In true [Literal (chr 10)], s1, g)
      else if one_of "^$*+?" c then None
      else if one_of "{" c then
        match brace_repeat s1 with
        | NoRepeat => Some (In false [Literal c], s1, g)
        | _ => None
        end
      else Some (In false [Literal c], s1, g)
  | _, _ => None
  end.

(** A pattern compiles to its syntax tree and its number of groups. *)
Definition compile (pat : string) : option (regex * nat) :=
  let s := list_ascii_of_string pat in
  match parse_sub (4 * length s + 4) s 0 with
  | Some (r, [], g) => Some (r, g)
  | _ => None
  end.

Definition finditer (p : regex * nat) (text : string) : list Match :=
  let s := list_ascii_of_string text in
  scan (2 * length s + 2) p.1 p.2 s false.

#[global] Instance engine : Re :=
  {| pattern := regex * nat;
     re_compile := compile;
     pattern_finditer := finditer |}.

End Sre.

(** ** [load_codes]: the file of the valid codes *)

(** [s.split(sep)] for a separator of one character: the pieces of [s]
    between the occurrences of [sep], the empty pieces too. *)
Fixpoint split (sep : ascii) (s : string) : list string :=
  match s with
  | EmptyString => [""]
  | String c s' =>
      if Ascii.eqb c sep then "" :: split sep s'
      else match split sep s' with
           | piece :: pieces => String c piece :: pieces
           | [] => [String c ""]
           end
  end.

Definition newline : ascii := ascii_of_nat 10.

(** [set(filter(None, valid_codes_str.split("\n")))]: the set that
    [load_codes] makes of the text it read. *)
Definition valid_codes_of (valid_codes_str : string) : gset pyval :=
  list_to_set
    (Some <$> filter (λ piece, piece ≠ "") (split newline valid_codes_str)).

(** ** Input and output

    [pdf2text], [load_codes] and [detect_codes] read files, run the
    recognition engine and print.  What a call printed is kept beside
    its outcome; what the libraries do is an interface, and a call to
    them returns a value or raises. *)

Inductive error : Type :=
  | Builtin (e : exn)
  | Foreign (name : string).   (* an exception of a library, by its name *)

Inductive outcome (A : Type) : Type :=
  | Returns (a : A)
  | Raises (e : error).
Arguments Returns {A} a.
Arguments Raises {A} e.

Record io (A : Type) : Type := Io { stdout : list string; ended : outcome A }.
Arguments Io {A} stdout ended.
Arguments stdout {A} _.
Arguments ended {A} _.

#[global] Instance io_ret : MRet io := fun A a => Io [] (Returns a).
#[global] Instance io_bind : MBind io := fun A B f m =>
  match ended m with
  | Returns a => Io (stdout m ++ stdout (f a)) (ended (f a))
  | Raises e => Io (stdout m) (Raises e)
  end.

(** [print(line)] *)
Definition print (line : string) : io unit := Io [line] (Returns tt).

(** A call to a library. *)
Definition call {A} (o : outcome A) : io A := Io [] o.

(** A computation that prints nothing. *)
Definition quiet {A} (r : result A) : io A :=
  Io [] (match r with Ok a => Returns a | Raise e => Raises (Builtin e) end).

(** [l[0]] *)
Definition item0 {A} (l : list A) : result A :=
  match l with
  | x :: _ => Ok x
  | [] => Raise IndexError
  end.

Class Libraries : Type := {
  pdf_file_reader : Type;
  image : Type;
  (** [PdfFileReader(file_path.as_posix())] *)
  PdfFileReader : string → outcome pdf_file_reader;
  (** [pdf_file.getNumPages()] *)
  getNumPages : pdf_file_reader → outcome Z;
  (** [pdf_file.getPage(i).extractText()] *)
  getPage_extractText : pdf_file_reader → Z → outcome string;
  (** [pdf2image.convert_from_path(file_path, dpi=300, grayscale=False,
      first_page=k, last_page=k)] *)
  convert_from_path : string → Z → outcome (list image);
  (** [pytesseract.image_to_string(image, config=tessconf)] *)
  image_to_string : image → option string → outcome string;
  (** [open(path)], [read()] and [close()] *)
  open_read : string → outcome string;
  (** [Path(path).absolute().as_posix()] *)
  absolute_as_posix : string → string
}.

(** ** [pdf2text] *)

Section pdf2text.
Context {libraries : Libraries}.

(** The dictionary comprehension of the text layer, on the dictionary
    that it fills. *)
Fixpoint text_layer_loop (pdf_file : pdf_file_reader) (page_range : list Z)
    (texts : gmap Z string) : io (gmap Z string) :=
  match page_range with
  | [] => mret texts
  | k :: rest =>
      text ← call (getPage_extractText pdf_file (k - 1));
      text_layer_loop pdf_file rest (<[k := text]> texts)
  end.

(** The loop of the recognition, on the dictionary that it fills. *)
Fixpoint ocr_loop (file_path : string) (tessconf : option string)
    (page_range : list Z) (texts : gmap Z string) : io (gmap Z string) :=
  match page_range with
  | [] => mret texts
  | k :: rest =>
      _ ← print ("Processing page " +:+ pretty k);
      images ← call (convert_from_path file_path k);
      image ← quiet (item0 images);
      text ← call (image_to_string image tessconf);
      ocr_loop file_path tessconf rest (<[k := text]> texts)
  end.

Definition pdf2text (file_path : string) (page_range : option (list Z))
    (tessconf : option string) (text_layer : bool) : io (gmap Z string) :=
  pdf_file ← call (PdfFileReader file_path);
  n_pages ← call (getNumPages pdf_file);
  let page_range :=
    match page_range with
    | None => seqZ 1 n_pages            (* range(1, n_pages + 1) *)
    | Some page_range => page_range
    end in
  if text_layer then text_layer_loop pdf_file page_range ∅
  else ocr_loop file_path tessconf page_range ∅.

End pdf2text.

(** ** [load_codes] and [detect_codes] *)

Section detect_codes.
Context {re : Re} {libraries : Libraries}.

Definition load_codes (valid_codes_path : string) : io (gset pyval) :=
  valid_codes_str ← call (open_read valid_codes_path);
  mret (valid_codes_of valid_codes_str).

(** The configuration of the recognition engine: the format string of
    [detect_codes], filled in. *)
Definition tessconf_of (extra_config valid_codes_path lang : string)
    (oem psm : Z) : string :=
  " --tessdata-dir ./tessdata " +:+ extra_config +:+
  " --user-words " +:+ absolute_as_posix valid_codes_path +:+
  " -l " +:+ lang +:+ " --oem " +:+ pretty oem +:+ " --psm " +:+ pretty psm.

Definition detect_codes (file_path valid_codes_path : string)
    (code_pattern code_header : string) (page_range : option (list Z))
    (text_layer show_tentative : bool)
    (substitutions : option substitutions_t)
    (lang : string) (oem psm : Z) (extra_config : string)
  : io (search_result Z) :=
  valid_codes ← load_codes valid_codes_path;
  let tessconf := tessconf_of extra_config valid_codes_path lang oem psm in
  texts ← pdf2text file_path page_range (Some tessconf) text_layer;
  quiet (search_codes texts valid_codes code_pattern code_header
           show_tentative substitutions).

End detect_codes.

(** ** [main]: the number of codes found *)

(** [len(list(itertools.chain( * codes_found.values())))]: the elements of
    the sets of all the pages, one after the other, counted. *)
Definition n_codes_found `{Countable K} (codes_found : gmap K (gset pyval))
  : nat :=
  length (mjoin (elements <$> (map_to_list codes_found).*2)).

(** ** Vocabulary of the specification *)

(** The branching factor of a character: the number of alternatives that
    the substitution dictionary gives it. *)
Definition branching (substitutions : substitutions_t) (c : ascii) : nat :=
  match substitutions !! c with
  | Some v => String.length v
  | None => 1
  end.

(** Extraction: the tentative set of a page text, as the first two
    statements of the loop body compute it. *)
Definition extract {re : Re} (search_pattern text : string)
  : result (gset pyval) :=
  matches ← finditer search_pattern text;
  group1_set matches ∅.

(** Expansion: the candidate set of a tentative set, as the conditional
    of the loop body computes it. *)
Definition candidates (substitutions : option substitutions_t)
    (tentative : gset pyval) : result (gset pyval) :=
  match substitutions with
  | Some substitutions =>
      extended ← expand_with_substitutions (elements tentative) substitutions;
      mret (list_to_set (Some <$> extended))
  | None => mret tentative
  end.

(** The dictionaries that a call returns. *)
Definition codes_found_of `{Countable K} (r : search_result K)
  : gmap K (gset pyval) :=
  match r with
  | Found codes_found => codes_found
  | FoundTentative codes_found _ => codes_found
  end.

Definition tentative_codes_of `{Countable K} (r : search_result K)
  : option (gmap K (gset pyval)) :=
  match r with
  | Found _ => None
  | FoundTentative _ tentative_codes => Some tentative_codes
  end.

(** What [pdf2text] reads of page [k]: the text layer of the page, or
    what the recognition engine makes of the first image of the page. *)
Definition page_text {libraries : Libraries} (pdf_file : pdf_file_reader)
    (file_path : string) (tessconf : option string) (text_layer : bool)
    (k : Z) : outcome string :=
  if text_layer then getPage_extractText pdf_file (k - 1)
  else match convert_from_path file_path k with
       | Returns images =>
           match item0 images with
           | Ok image => image_to_string image tessconf
           | Raise e => Raises (Builtin e)
           end
       | Raises e => Raises e
       end.

(** The dictionary of the pages read one after the other, as far as
    every page is read. *)
Fixpoint read_pages (read : Z → outcome string) (page_range : list Z)
    (texts : gmap Z string) : outcome (gmap Z string) :=
  match page_range with
  | [] => Returns texts
  | k :: rest =>
      match read k with
      | Returns text => read_pages read rest (<[k := text]> texts)
      | Raises e => Raises e
      end
  end.

(** The pages that are started: those up to the first one that is not
    read, that one included. *)
Fixpoint started (read : Z → outcome string) (page_range : list Z) : list Z :=
  match page_range with
  | [] => []
  | k :: rest =>
      k :: match read k with
           | Returns _ => started read rest
           | Raises _ => []
           end
  end.

(** The lines that the recognition prints for the pages. *)
Definition progress (pages : list Z) : list string :=
  (λ k : Z, "Processing page " +:+ pretty k) <$> pages.

(** The text of a file of codes: every code on a line of its own. *)
Definition unlines (codes : list string) : string :=
  foldr (λ code rest, code +:+ String newline rest) "" codes.

(** ** A document for the examples

    Libraries that know one document of two pages, "doc.pdf", whose
    images are read as the text layer has them, and one file of codes,
    "codes.txt". *)

Module Sample.

Definition page (k : Z) : option string :=
  if decide (k = 1%Z) then Some "REF: O0123"
  else if decide (k = 2%Z) then Some "REF: AB12"
  else None.

Definition libraries : Libraries :=
  {| pdf_file_reader := unit;
     image := string;
     PdfFileReader path :=
       if decide (path = "doc.pdf") then Returns tt
       else Raises (Foreign "FileNotFoundError");
     getNumPages _ := Returns 2%Z;
     getPage_extractText _ i :=
       match page (i + 1) with
       | Some text => Returns text
       | None => Raises (Builtin IndexError)
       end;
     convert_from_path path k :=
       Returns (match page k with Some text => [text] | None => [] end);
     image_to_string image _ := Returns image;
     open_read path :=
       if decide (path = "codes.txt") then Returns (unlines ["00123"; "AB12"])
       else Raises (Foreign "FileNotFoundError");
     absolute_as_posix path := "/" +:+ path |}.

End Sample.

(** * Properties *)

(** ** The Cartesian product *)

Section product.
Context {A : Type}.
Implicit Types (pools : list (list A)) (t : list A).

Lemma length_product pools :
  length (product pools) = foldr (λ pool n, length pool * n) 1 pools.
Proof.
  induction pools as [|pool rest IH]; [done|]. simpl. rewrite <- IH.
  generalize (product rest). intros ts.
  induction pool as [|x pool IHp]; [done|]. simpl.
  rewrite length_app, length_fmap. unfold mbind in IHp. rewrite IHp. lia.
Qed.

Lemma elem_of_product pools t :
  t ∈ product pools ↔ Forall2 (λ x pool, x ∈ pool) t pools.
Proof.
  revert t. induction pools as [|pool rest IH]; intros t; simpl.
  - rewrite list_elem_of_singleton. split.
    + intros ->. constructor.
    + by inversion 1.
  - rewrite list_elem_of_bind. split.
    + intros (x & Ht & Hx). apply list_elem_of_fmap in Ht as (t' & -> & Ht').
      constructor; [done|]. by apply IH.
    + inversion 1 as [|x pool' t' rest' Hx Ht']; subst.
      exists x. split; [|done]. apply list_elem_of_fmap.
      exists t'. split; [done|]. by apply IH.
Qed.

Lemma product_nil_pool pools : [] ∈ pools → product pools = [].
Proof.
  induction pools as [|pool rest IH]; [by inversion 1|].
  rewrite elem_of_cons. intros [<-|Hin]; [done|]. simpl.
  rewrite IH by done. by induction pool.
Qed.
End product.

(** ** [list_substitutions] *)

Section list_substitutions.
Implicit Types (st s : string) (substitutions : substitutions_t).

Lemma length_list_ascii_of_string s :
  length (list_ascii_of_string s) = String.length s.
Proof. induction s; simpl; congruence. Qed.

Lemma elem_of_list_substitutions st substitutions s :
  s ∈ list_substitutions st substitutions ↔
  Forall2 (λ x c, x ∈ list_ascii_of_string (sub_choice substitutions c))
    (list_ascii_of_string s) (list_ascii_of_string st).
Proof.
  unfold list_substitutions, sub_space, join.
  rewrite list_elem_of_fmap. setoid_rewrite elem_of_product.
  setoid_rewrite <- list_fmap_compose. setoid_rewrite Forall2_fmap_r.
  split.
  - intros (t & -> & Ht). by rewrite list_ascii_of_string_of_list_ascii.
  - intros Hs. exists (list_ascii_of_string s).
    by rewrite string_of_list_ascii_of_string.
Qed.

Lemma list_substitutions_length_aux st substitutions :
  length (list_substitutions st substitutions) =
  foldr Nat.mul 1 (branching substitutions <$> list_ascii_of_string st).
Proof.
  unfold list_substitutions, sub_space. rewrite length_fmap, length_product.
  induction (list_ascii_of_string st) as [|c l IH]; [done|].
  csimpl. rewrite IH. f_equal.
  rewrite length_list_ascii_of_string. unfold sub_choice, branching.
  by destruct (substitutions !! c).
Qed.
End list_substitutions.

(** ** [expand_with_substitutions] *)

Section expand_with_substitutions.
Implicit Types (codes : list pyval) (substitutions : substitutions_t).

Lemma expand_loop_strs (sts : list string) substitutions acc :
  expand_loop (Some <$> sts) substitutions acc =
  Ok (acc ++ (sts ≫= λ st, list_substitutions st substitutions)).
Proof.
  revert acc. induction sts as [|st sts IH]; intros acc; simpl.
  - by rewrite app_nil_r.
  - rewrite IH. by rewrite <- app_assoc.
Qed.

Lemma expand_loop_None codes substitutions acc :
  None ∈ codes → expand_loop codes substitutions acc = Raise TypeError.
Proof.
  revert acc. induction codes as [|[st|] codes IH]; intros acc.
  - by inversion 1.
  - rewrite elem_of_cons. intros [?|Hin]; [done|]. simpl. by apply IH.
  - done.
Qed.

Lemma all_strs codes : None ∉ codes → ∃ sts, codes = Some <$> sts.
Proof.
  induction codes as [|[st|] codes IH]; rewrite ?not_elem_of_cons.
  - by exists [].
  - intros [_ Hn]. destruct (IH Hn) as [sts ->]. by exists (st :: sts).
  - by intros [[] _].
Qed.

(** On a set of strings the expansion returns, and what it returns
    holds the substitution variants of every token and nothing else. *)
Lemma expand_elements (X : gset pyval) substitutions :
  None ∉ X →
  ∃ l, expand_with_substitutions (elements X) substitutions = Ok l ∧
       ∀ s, s ∈ l ↔
            ∃ st, Some st ∈ X ∧ s ∈ list_substitutions st substitutions.
Proof.
  intros Hn. destruct (all_strs (elements X)) as [sts Hsts].
  { by rewrite elem_of_elements. }
  unfold expand_with_substitutions. rewrite Hsts, expand_loop_strs.
  eexists; split; [done|]. intros s. simpl. rewrite list_elem_of_bind.
  split.
  - intros (st & Hs & Hst). exists st. split; [|done].
    apply elem_of_elements. rewrite Hsts. by apply list_elem_of_fmap_2.
  - intros (st & Hst & Hs). exists st. split; [done|].
    apply elem_of_elements in Hst. rewrite Hsts in Hst.
    apply list_elem_of_fmap in Hst as (st' & [= <-] & Hst). done.
Qed.

Lemma expand_elements_None (X : gset pyval) substitutions :
  None ∈ X →
  expand_with_substitutions (elements X) substitutions = Raise TypeError.
Proof. intros Hn. apply expand_loop_None. by apply elem_of_elements. Qed.
End expand_with_substitutions.

(** ** The loop of [search_codes] *)

Section search_loop.
Context {re : Re} `{Countable K}.
Implicit Types (texts : gmap K string) (valid_codes : gset pyval)
  (substitutions : option substitutions_t) (pages : list K)
  (tentative_codes codes_found : gmap K (gset pyval)).

(** The loop body extracts, expands, and records the candidate set and
    its intersection with the valid codes under the page. *)
Lemma search_page_stages texts valid_codes pat substitutions page
    tentative_codes codes_found :
  search_page texts valid_codes pat substitutions page
    tentative_codes codes_found =
  (raw ← extract pat (texts !!! page);
   cand ← candidates substitutions raw;
   mret (<[page := cand]> tentative_codes,
         <[page := cand ∩ valid_codes]> codes_found)).
Proof.
  unfold search_page, extract, candidates.
  destruct (finditer pat (texts !!! page)) as [matches|e]; [|done]. simpl.
  destruct (group1_set matches ∅) as [raw|e]; [|done]. simpl.
  rewrite lookup_total_insert_eq. destruct substitutions as [subs|]; simpl.
  - destruct (expand_with_substitutions (elements raw) subs); [|done].
    simpl. by rewrite lookup_total_insert_eq, insert_insert_eq.
  - by rewrite lookup_total_insert_eq.
Qed.

Lemma search_loop_Ok texts valid_codes pat substitutions pages
    tentative_codes codes_found tentative_codes' codes_found' :
  search_loop texts valid_codes pat substitutions pages
    tentative_codes codes_found = Ok (tentative_codes', codes_found') →
  (∀ page, page ∈ pages →
     ∃ raw cand,
       extract pat (texts !!! page) = Ok raw ∧
       candidates substitutions raw = Ok cand ∧
       tentative_codes' !! page = Some cand ∧
       codes_found' !! page = Some (cand ∩ valid_codes)) ∧
  (∀ page, page ∉ pages →
     tentative_codes' !! page = tentative_codes !! page ∧
     codes_found' !! page = codes_found !! page).
Proof.
  revert tentative_codes codes_found.
  induction pages as [|p rest IH]; intros tc cf Hloop; simpl in Hloop.
  - injection Hloop as <- <-. split; [by inversion 1|done].
  - rewrite search_page_stages in Hloop.
    destruct (extract pat (texts !!! p)) as [raw|e] eqn:Hraw; [|done].
    simpl in Hloop.
    destruct (candidates substitutions raw) as [cand|e] eqn:Hcand; [|done].
    simpl in Hloop. apply IH in Hloop as [Hin Hout]. split.
    + intros page Hpage. destruct (decide (page ∈ rest)) as [Hr|Hr].
      { by apply Hin. }
      apply elem_of_cons in Hpage as [->|?]; [|done].
      destruct (Hout p Hr) as [-> ->]. exists raw, cand.
      by rewrite !lookup_insert_eq.
    + intros page [Hne Hr]%not_elem_of_cons.
      destruct (Hout page Hr) as [-> ->].
      by rewrite !lookup_insert_ne.
Qed.

Lemma search_loop_returns texts valid_codes pat substitutions pages
    tentative_codes codes_found :
  (∀ page, page ∈ pages →
     ∃ raw cand, extract pat (texts !!! page) = Ok raw ∧
                 candidates substitutions raw = Ok cand) →
  ∃ tentative_codes' codes_found',
    search_loop texts valid_codes pat substitutions pages
      tentative_codes codes_found = Ok (tentative_codes', codes_found').
Proof.
  revert tentative_codes codes_found.
  induction pages as [|p rest IH]; intros tc cf Hpages; simpl.
  - by eexists _, _.
  - rewrite search_page_stages.
    destruct (Hpages p) as (raw & cand & -> & Hcand); [by left|].
    simpl. rewrite Hcand. simpl. apply IH.
    intros page Hpage. apply Hpages. by right.
Qed.

(** The first page makes the engine compile the pattern. *)
Lemma search_loop_re_error texts valid_codes pat substitutions pages
    tentative_codes codes_found :
  re_compile pat = None → pages ≠ [] →
  search_loop texts valid_codes pat substitutions pages
    tentative_codes codes_found = Raise re_error.
Proof.
  intros Hpat Hpages. destruct pages as [|p rest]; [done|]. simpl.
  rewrite search_page_stages. unfold extract, finditer. by rewrite Hpat.
Qed.

Lemma elem_of_keys texts page : page ∈ keys texts ↔ page ∈ dom texts.
Proof. unfold keys. apply elem_of_elements. Qed.

Lemma keys_nil texts : keys texts = [] ↔ texts = ∅.
Proof.
  unfold keys. rewrite elements_empty_iff. apply dom_empty_iff.
Qed.

Lemma search_codes_Ok texts valid_codes code_pattern code_header
    show_tentative substitutions r :
  search_codes texts valid_codes code_pattern code_header
    show_tentative substitutions = Ok r →
  ∃ tentative_codes,
    r = (if show_tentative
         then FoundTentative (codes_found_of r) tentative_codes
         else Found (codes_found_of r)) ∧
    search_loop texts valid_codes
      (search_pattern_of code_header code_pattern) substitutions
      (keys texts) ∅ ∅ = Ok (tentative_codes, codes_found_of r).
Proof.
  unfold search_codes.
  destruct (search_loop _ _ _ _ _ _ _) as [[tc cf]|e]; [|done]. simpl.
  destruct show_tentative; intros [= <-]; by exists tc.
Qed.
End search_loop.

(** ** Extraction *)

Section extraction.
Implicit Types (matches : list Match) (acc T : gset pyval).

Lemma group_Ok (m : Match) n v : group m n = Ok v ↔ groups m !! n = Some v.
Proof. unfold group. destruct (groups m !! n); naive_solver. Qed.

Lemma group1_set_Ok matches acc T :
  group1_set matches acc = Ok T →
  ∀ v, v ∈ T ↔ v ∈ acc ∨ ∃ m, m ∈ matches ∧ groups m !! 1 = Some v.
Proof.
  revert acc. induction matches as [|m rest IH]; intros acc; simpl.
  - intros [= <-] v. split; [by left|]. intros [?|(m & Hm & _)]; [done|].
    by inversion Hm.
  - destruct (group m 1) as [w|e] eqn:Hw; [|done]. simpl.
    apply group_Ok in Hw. intros Hrest v. rewrite (IH _ Hrest).
    rewrite elem_of_union, elem_of_singleton. split.
    + intros [[->|?]|(m' & Hm' & Hv)]; [right|by left|right].
      * exists m. split; [by left|done].
      * exists m'. split; [by right|done].
    + intros [?|(m' & Hm' & Hv)]; [by left; right|].
      apply elem_of_cons in Hm' as [->|Hm'].
      * left; left. congruence.
      * right. by exists m'.
Qed.

Lemma group1_set_size matches acc T :
  group1_set matches acc = Ok T → (size T ≤ size acc + length matches)%nat.
Proof.
  revert acc. induction matches as [|m rest IH]; intros acc; simpl.
  - intros [= <-]. lia.
  - destruct (group m 1) as [w|e]; [|done]. simpl. intros Hrest.
    apply IH in Hrest.
    pose proof (size_union_alt {[w]} acc) as Hu.
    assert (size (acc ∖ {[w]}) ≤ size acc)%nat as Hd
      by (apply subseteq_size; set_solver).
    rewrite size_singleton in Hu. lia.
Qed.

Lemma group1_set_returns matches acc :
  Forall (λ m, is_Some (groups m !! 1)) matches →
  ∃ T, group1_set matches acc = Ok T.
Proof.
  revert acc. induction matches as [|m rest IH]; intros acc; simpl.
  - by eexists.
  - inversion 1 as [|? ? [v Hv] Hrest]; subst. unfold group. rewrite Hv.
    simpl. by apply IH.
Qed.
End extraction.

(** ** Expansion inside the loop *)

Lemma candidates_Some (substitutions : substitutions_t)
    (raw cand : gset pyval) :
  candidates (Some substitutions) raw = Ok cand →
  (None ∉ raw) ∧
  (∀ v, v ∈ cand ↔
        ∃ st s, Some st ∈ raw ∧ s ∈ list_substitutions st substitutions ∧
                v = Some s).
Proof.
  unfold candidates. intros Hcand.
  destruct (decide (None ∈ raw)) as [Hn|Hn].
  { by rewrite (expand_elements_None _ _ Hn) in Hcand. }
  split; [done|].
  destruct (expand_elements raw substitutions Hn) as (l & Hl & Hmem).
  rewrite Hl in Hcand. injection Hcand as <-. intros v.
  rewrite elem_of_list_to_set, list_elem_of_fmap. split.
  - intros (s & -> & Hs). apply Hmem in Hs as (st & Hst & Hs). by exists st, s.
  - intros (st & s & Hst & Hs & ->). exists s. split; [done|].
    apply Hmem. by exists st.
Qed.

(** ** Runs that return *)

Lemma candidates_returns (substitutions : option substitutions_t)
    (raw : gset pyval) :
  None ∉ raw → ∃ cand, candidates substitutions raw = Ok cand.
Proof.
  intros Hn. destruct substitutions as [subs|]; simpl; [|by eexists].
  destruct (expand_elements raw subs Hn) as (l & -> & _). by eexists.
Qed.

(** A run returns when the composed pattern compiles and group 1 of
    every match on every page is a string. *)
Lemma search_codes_returns {re : Re} `{Countable K}
    (texts : gmap K string) (valid_codes : gset pyval)
    (code_pattern code_header : string) (show_tentative : bool)
    (substitutions : option substitutions_t) (p : pattern) :
  re_compile (search_pattern_of code_header code_pattern) = Some p →
  (∀ page, page ∈ dom texts →
     Forall (λ m, ∃ st, groups m !! 1 = Some (Some st))
       (pattern_finditer p (texts !!! page))) →
  ∃ r, search_codes texts valid_codes code_pattern code_header
         show_tentative substitutions = Ok r.
Proof.
  intros Hp Hpages. unfold search_codes.
  destruct (search_loop_returns texts valid_codes
              (search_pattern_of code_header code_pattern) substitutions
              (keys texts) ∅ ∅) as (tc & cf & ->).
  - intros page Hpage%elem_of_keys. specialize (Hpages page Hpage).
    unfold extract, finditer. rewrite Hp. simpl.
    destruct (group1_set_returns (pattern_finditer p (texts !!! page)) ∅)
      as [raw Hraw].
    { eapply Forall_impl; [done|]. intros m [st ->]. by eexists. }
    rewrite Hraw.
    destruct (candidates_returns substitutions raw) as [cand Hcand].
    + intros Hn. apply (group1_set_Ok _ _ _ Hraw) in Hn as [Hn|(m & Hm & Hg)].
      { by apply not_elem_of_empty in Hn. }
      rewrite Forall_forall in Hpages. destruct (Hpages m Hm) as [st Hst].
      congruence.
    + by exists raw, cand.
  - simpl. destruct show_tentative; by eexists.
Qed.

(** * The claims *)

(** ** Expansion of one token *)

(** C2. The number of candidates that [list_substitutions] produces for
    a token is the product, over the character positions of the token,
    of 1 where the character is not a key of the substitution dictionary
    and of the length of the dictionary's value for it where it is. *)
Theorem list_substitutions_length (st : string)
    (substitutions : substitutions_t) :
  length (list_substitutions st substitutions) =
  foldr Nat.mul 1
    ((λ c, match substitutions !! c with
           | Some v => String.length v
           | None => 1
           end) <$> list_ascii_of_string st).
Proof. apply list_substitutions_length_aux. Qed.

(** C8. Every string that [list_substitutions] produces has the length
    of the token, and its character at each position is the token's own
    when that one is not a key of the dictionary, and else one of the
    characters of the dictionary's value for it. *)
Theorem list_substitutions_same_length (st s : string)
    (substitutions : substitutions_t) :
  s ∈ list_substitutions st substitutions →
  String.length s = String.length st ∧
  Forall2 (λ x c, match substitutions !! c with
                  | Some v => x ∈ list_ascii_of_string v
                  | None => x = c
                  end)
    (list_ascii_of_string s) (list_ascii_of_string st).
Proof.
  intros Hs%elem_of_list_substitutions. split.
  - rewrite <- !length_list_ascii_of_string. by eapply Forall2_length.
  - eapply Forall2_impl; [done|]. intros x c. unfold sub_choice.
    destruct (substitutions !! c); [done|]. simpl.
    by rewrite list_elem_of_singleton.
Qed.

Lemma list_substitutions_same_length_witness :
  "00123" ∈ list_substitutions "O0123" {["O"%char := "O0"]} ∧
  String.length "00123" = String.length "O0123" ∧
  Forall2 (λ x c, match ({["O"%char := "O0"]} : substitutions_t) !! c with
                  | Some v => x ∈ list_ascii_of_string v
                  | None => x = c
                  end)
    (list_ascii_of_string "00123") (list_ascii_of_string "O0123").
Proof.
  assert ("00123" ∈ list_substitutions "O0123" {["O"%char := "O0"]}) as Hs.
  { vm_compute. right. left. }
  split; [exact Hs|].
  exact (list_substitutions_same_length _ _ _ Hs).
Defined.

(** C10. When the dictionary sends a character of the token to the empty
    string, [list_substitutions] returns no string at all for the token,
    the token itself included, and in [expand_with_substitutions] the
    token adds nothing to the candidates of the other tokens. *)
Theorem list_substitutions_empty_alternative (st : string)
    (substitutions : substitutions_t) (c : ascii) :
  c ∈ list_ascii_of_string st →
  substitutions !! c = Some "" →
  list_substitutions st substitutions = [] ∧
  ∀ codes, expand_with_substitutions (Some st :: codes) substitutions =
           expand_with_substitutions codes substitutions.
Proof.
  intros Hc Hsub.
  assert (list_substitutions st substitutions = []) as Hnil.
  { unfold list_substitutions, sub_space. rewrite product_nil_pool; [done|].
    apply list_elem_of_fmap. exists "". split; [done|].
    apply list_elem_of_fmap. exists c. split; [|done].
    unfold sub_choice. by rewrite Hsub. }
  split; [done|]. intros codes. unfold expand_with_substitutions. simpl.
  by rewrite Hnil.
Qed.

Lemma list_substitutions_empty_alternative_witness :
  "B"%char ∈ list_ascii_of_string "AB1" ∧
  ({["B"%char := ""]} : substitutions_t) !! "B"%char = Some "" ∧
  list_substitutions "AB1" {["B"%char := ""]} = [] ∧
  ∀ codes, expand_with_substitutions (Some "AB1" :: codes)
             {["B"%char := ""]} =
           expand_with_substitutions codes {["B"%char := ""]}.
Proof.
  assert ("B"%char ∈ list_ascii_of_string "AB1") as Hc.
  { simpl. right. left. }
  assert (({["B"%char := ""]} : substitutions_t) !! "B"%char = Some "") as Hs.
  { reflexivity. }
  split; [exact Hc|]. split; [exact Hs|].
  exact (list_substitutions_empty_alternative _ _ _ Hc Hs).
Defined.

(** ** Expansion of a set of tokens *)

(** C5. On sets of strings the expansion returns, the candidates of a
    union of two sets are, as a set, the union of the candidates of the
    two, and a string is a candidate exactly when [list_substitutions]
    produces it from one single token of the set. *)
Theorem expand_with_substitutions_union (X Y : gset pyval)
    (substitutions : substitutions_t) :
  None ∉ X → None ∉ Y →
  ∃ lx ly l,
    expand_with_substitutions (elements X) substitutions = Ok lx ∧
    expand_with_substitutions (elements Y) substitutions = Ok ly ∧
    expand_with_substitutions (elements (X ∪ Y)) substitutions = Ok l ∧
    (list_to_set l : gset string) = list_to_set lx ∪ list_to_set ly ∧
    (∀ s, s ∈ l ↔
          ∃ st, Some st ∈ X ∪ Y ∧ s ∈ list_substitutions st substitutions).
Proof.
  intros HX HY.
  destruct (expand_elements X substitutions HX) as (lx & Hlx & Hmx).
  destruct (expand_elements Y substitutions HY) as (ly & Hly & Hmy).
  destruct (expand_elements (X ∪ Y) substitutions) as (l & Hl & Hm).
  { set_solver. }
  exists lx, ly, l. repeat split; try done; [|by apply Hm|by apply Hm].
  apply set_eq. intros s.
  rewrite elem_of_union, !elem_of_list_to_set, Hm, Hmx, Hmy.
  setoid_rewrite elem_of_union. naive_solver.
Qed.

Lemma expand_with_substitutions_union_witness :
  (None ∉ ({[Some "O1"]} : gset pyval)) ∧
  (None ∉ ({[Some "2O"]} : gset pyval)) ∧
  ∃ lx ly l,
    expand_with_substitutions (elements ({[Some "O1"]} : gset pyval))
      {["O"%char := "O0"]} = Ok lx ∧
    expand_with_substitutions (elements ({[Some "2O"]} : gset pyval))
      {["O"%char := "O0"]} = Ok ly ∧
    expand_with_substitutions
      (elements ({[Some "O1"]} ∪ {[Some "2O"]} : gset pyval))
      {["O"%char := "O0"]} = Ok l ∧
    (list_to_set l : gset string) = list_to_set lx ∪ list_to_set ly ∧
    (∀ s, s ∈ l ↔
          ∃ st, Some st ∈ ({[Some "O1"]} ∪ {[Some "2O"]} : gset pyval) ∧
                s ∈ list_substitutions st {["O"%char := "O0"]}).
Proof.
  assert (None ∉ ({[Some "O1"]} : gset pyval)) as HX.
  { intros [=]%elem_of_singleton. }
  assert (None ∉ ({[Some "2O"]} : gset pyval)) as HY.
  { intros [=]%elem_of_singleton. }
  split; [exact HX|]. split; [exact HY|].
  exact (expand_with_substitutions_union _ _ _ HX HY).
Defined.

(** ** Extraction *)

(** C7. When the composed pattern [code_header + "(" + code_pattern + ")"]
    compiles, a text without a match gives the empty tentative set and no
    error; a tentative set that extraction returns holds exactly the
    values of group 1 of the matches that the engine finds, each once;
    and extraction returns whenever every match has a group 1. *)
Theorem extract_group1 {re : Re} (code_header code_pattern text : string)
    (p : pattern) :
  re_compile (search_pattern_of code_header code_pattern) = Some p →
  (pattern_finditer p text = [] →
   extract (search_pattern_of code_header code_pattern) text = Ok ∅) ∧
  (∀ T, extract (search_pattern_of code_header code_pattern) text = Ok T →
        (∀ v, v ∈ T ↔
              ∃ m, m ∈ pattern_finditer p text ∧ group m 1 = Ok v) ∧
        (size T ≤ length (pattern_finditer p text))%nat) ∧
  (Forall (λ m, is_Some (groups m !! 1)) (pattern_finditer p text) →
   ∃ T, extract (search_pattern_of code_header code_pattern) text = Ok T).
Proof.
  intros Hp. unfold extract, finditer. rewrite Hp. simpl.
  split; [by intros ->|]. split.
  - intros T HT. split.
    + intros v. rewrite (group1_set_Ok _ _ _ HT). setoid_rewrite group_Ok.
      split; [intros [Hv|?]; [|done]|by right]. by apply not_elem_of_empty in Hv.
    + pose proof (group1_set_size _ _ _ HT) as Hsize.
      by rewrite size_empty in Hsize.
  - apply group1_set_returns.
Qed.

Lemma extract_group1_witness :
  re_compile (search_pattern_of "" "\d{3}") =
    Some (Sre.Cat (Sre.Subpattern 1
            (Sre.Cat (Sre.MaxRepeat 3 (Some 3)
                        (Sre.In false [Sre.Category false "d"%char]))
               Sre.Empty)) Sre.Empty, 1) ∧
  extract (search_pattern_of "" "\d{3}") "abc" = Ok ∅ ∧
  ∀ T, extract (search_pattern_of "" "\d{3}") "x123y456" = Ok T →
       ∀ v, v ∈ T ↔ ∃ m, m ∈ Sre.finditer
                               (Sre.Cat (Sre.Subpattern 1
                                  (Sre.Cat (Sre.MaxRepeat 3 (Some 3)
                                     (Sre.In false
                                        [Sre.Category false "d"%char]))
                                     Sre.Empty)) Sre.Empty, 1)
                               "x123y456" ∧
                         group m 1 = Ok v.
Proof.
  assert (re_compile (search_pattern_of "" "\d{3}") =
          Some (Sre.Cat (Sre.Subpattern 1
                  (Sre.Cat (Sre.MaxRepeat 3 (Some 3)
                              (Sre.In false [Sre.Category false "d"%char]))
                     Sre.Empty)) Sre.Empty, 1)) as Hp.
  { vm_compute. reflexivity. }
  split; [exact Hp|]. split.
  - apply (proj1 (extract_group1 "" "\d{3}" "abc" _ Hp)).
    vm_compute. reflexivity.
  - intros T HT.
    apply (proj1 (proj1 (proj2 (extract_group1 "" "\d{3}" "x123y456" _ Hp))
                    T HT)).
Defined.

(** ** The result of a run *)

(** C1. In what a run returns, the validated set of every page is the
    intersection of the page's candidate set (its tentative set, expanded
    when a substitution dictionary is given) with the valid codes: a
    value is validated exactly when it is a candidate and a valid code,
    compared as they are. *)
Theorem validated_is_intersection {re : Re} `{Countable K}
    (texts : gmap K string) (valid_codes : gset pyval)
    (code_pattern code_header : string) (show_tentative : bool)
    (substitutions : option substitutions_t) (r : search_result K) :
  search_codes texts valid_codes code_pattern code_header
    show_tentative substitutions = Ok r →
  ∀ page, page ∈ dom texts →
    ∃ raw X F,
      extract (search_pattern_of code_header code_pattern) (texts !!! page)
        = Ok raw ∧
      candidates substitutions raw = Ok X ∧
      codes_found_of r !! page = Some F ∧
      F = X ∩ valid_codes ∧
      (∀ v, v ∈ F ↔ v ∈ X ∧ v ∈ valid_codes).
Proof.
  intros (tc & _ & Hloop)%search_codes_Ok page Hpage%elem_of_keys.
  apply search_loop_Ok in Hloop as [Hin _].
  destruct (Hin page Hpage) as (raw & X & Hraw & HX & _ & HF).
  exists raw, X, (X ∩ valid_codes). repeat split; try done; set_solver.
Qed.

(** C9. The dictionaries that a run returns, of the validated sets and,
    when asked for, of the tentative sets, have the pages of [texts] as
    their keys and no other key. *)
Theorem search_codes_keys {re : Re} `{Countable K}
    (texts : gmap K string) (valid_codes : gset pyval)
    (code_pattern code_header : string) (show_tentative : bool)
    (substitutions : option substitutions_t) (r : search_result K) :
  search_codes texts valid_codes code_pattern code_header
    show_tentative substitutions = Ok r →
  dom (codes_found_of r) = dom texts ∧
  (∀ tentative_codes, tentative_codes_of r = Some tentative_codes →
                      dom tentative_codes = dom texts) ∧
  (show_tentative = true → is_Some (tentative_codes_of r)).
Proof.
  intros (tc & Hr & Hloop)%search_codes_Ok.
  apply search_loop_Ok in Hloop as [Hin Hout].
  assert (dom (codes_found_of r) = dom texts ∧ dom tc = dom texts) as [Hcf Htc].
  { split; apply set_eq; intros page;
      rewrite <- elem_of_keys, elem_of_dom.
    - split.
      + intros Hsome. destruct (decide (page ∈ keys texts)) as [|Hn]; [done|].
        destruct (Hout page Hn) as [_ Heq]. rewrite Heq, lookup_empty in Hsome.
        by destruct Hsome.
      + intros Hpage. destruct (Hin page Hpage) as (? & ? & _ & _ & _ & ->).
        by eexists.
    - split.
      + intros Hsome. destruct (decide (page ∈ keys texts)) as [|Hn]; [done|].
        destruct (Hout page Hn) as [Heq _]. rewrite Heq, lookup_empty in Hsome.
        by destruct Hsome.
      + intros Hpage. destruct (Hin page Hpage) as (? & ? & _ & _ & -> & _).
        by eexists. }
  split; [done|]. rewrite Hr. destruct show_tentative; simpl.
  - split; [by intros ? [= <-]|by eexists].
  - done.
Qed.

Lemma validated_is_intersection_witness :
  search_codes (re := Sre.engine) (K := nat)
    {[1 := "REF: O0123"]} {[Some "00123"]} "[A-Z0-9]{5}" "REF:\s*"
    false (Some {["O"%char := "O0"]}) =
    Ok (Found {[1 := {[Some "00123"]}]}) ∧
  1 ∈ dom ({[1 := "REF: O0123"]} : gmap nat string) ∧
  ∃ raw X F,
    extract (re := Sre.engine) (search_pattern_of "REF:\s*" "[A-Z0-9]{5}")
      (({[1 := "REF: O0123"]} : gmap nat string) !!! 1) = Ok raw ∧
    candidates (Some {["O"%char := "O0"]}) raw = Ok X ∧
    codes_found_of (Found ({[1 := {[Some "00123"]}]} : gmap nat _)) !! 1
      = Some F ∧
    F = X ∩ {[Some "00123"]} ∧
    (∀ v, v ∈ F ↔ v ∈ X ∧ v ∈ ({[Some "00123"]} : gset pyval)).
Proof.
  assert (search_codes (re := Sre.engine) (K := nat)
            {[1 := "REF: O0123"]} {[Some "00123"]} "[A-Z0-9]{5}" "REF:\s*"
            false (Some {["O"%char := "O0"]}) =
          Ok (Found {[1 := {[Some "00123"]}]})) as Hrun.
  { vm_compute. reflexivity. }
  assert (1 ∈ dom ({[1 := "REF: O0123"]} : gmap nat string)) as Hpage.
  { rewrite dom_singleton_L. by apply elem_of_singleton. }
  split; [exact Hrun|]. split; [exact Hpage|].
  exact (validated_is_intersection _ _ _ _ _ _ _ Hrun 1 Hpage).
Defined.

Lemma search_codes_keys_witness :
  search_codes (re := Sre.engine) (K := nat)
    {[1 := "x123y456"; 2 := "no code"]} {[Some "456"]} "\d{3}" ""
    true None =
    Ok (FoundTentative {[1 := {[Some "456"]}; 2 := ∅]}
          {[1 := {[Some "123"; Some "456"]}; 2 := ∅]}) ∧
  dom (codes_found_of
         (FoundTentative ({[1 := {[Some "456"]}; 2 := ∅]} : gmap nat _)
            {[1 := {[Some "123"; Some "456"]}; 2 := ∅]})) =
    dom ({[1 := "x123y456"; 2 := "no code"]} : gmap nat string) ∧
  (∀ tentative_codes,
     tentative_codes_of
       (FoundTentative ({[1 := {[Some "456"]}; 2 := ∅]} : gmap nat _)
          {[1 := {[Some "123"; Some "456"]}; 2 := ∅]}) =
       Some tentative_codes →
     dom tentative_codes =
       dom ({[1 := "x123y456"; 2 := "no code"]} : gmap nat string)) ∧
  (true = true →
   is_Some (tentative_codes_of
              (FoundTentative ({[1 := {[Some "456"]}; 2 := ∅]} : gmap nat _)
                 {[1 := {[Some "123"; Some "456"]}; 2 := ∅]}))).
Proof.
  assert (search_codes (re := Sre.engine) (K := nat)
            {[1 := "x123y456"; 2 := "no code"]} {[Some "456"]} "\d{3}" ""
            true None =
          Ok (FoundTentative {[1 := {[Some "456"]}; 2 := ∅]}
                {[1 := {[Some "123"; Some "456"]}; 2 := ∅]})) as Hrun.
  { vm_compute. reflexivity. }
  split; [exact Hrun|].
  exact (search_codes_keys _ _ _ _ _ _ _ Hrun).
Defined.

(** ** The tentative sets of a run with substitutions *)

(** C3, as stated, fails: with the dictionary [{"O": "O0"}] the tentative
    set recorded for the page "REF: O0123" is the expanded set, which
    holds "00123", and not the set of the pattern matches, which is
    the set of "O0123" alone. *)
Lemma tentative_is_not_pre_expansion :
  extract (re := Sre.engine) (search_pattern_of "REF:\s*" "[A-Z0-9]{5}")
    "REF: O0123" = Ok {[Some "O0123"]} ∧
  ∃ codes_found tentative_codes,
    search_codes (re := Sre.engine) (K := nat)
      {[1 := "REF: O0123"]} {[Some "00123"]} "[A-Z0-9]{5}" "REF:\s*"
      true (Some {["O"%char := "O0"]}) =
      Ok (FoundTentative codes_found tentative_codes) ∧
    tentative_codes !! 1 = Some {[Some "O0123"; Some "00123"]} ∧
    tentative_codes !! 1 ≠ Some {[Some "O0123"]}.
Proof.
  split; [vm_compute; reflexivity|].
  exists {[1 := {[Some "00123"]}]}, {[1 := {[Some "O0123"; Some "00123"]}]}.
  split; [vm_compute; reflexivity|]. split; [vm_compute; reflexivity|].
  vm_compute. intros [=].
Qed.

(** C3, amended. With a substitution dictionary, the tentative set that a
    run records for a page is the expanded set: a value is in it exactly
    when [list_substitutions] produces it from one of the pattern matches
    of the page, which are all strings. *)
Theorem tentative_is_expanded {re : Re} `{Countable K}
    (texts : gmap K string) (valid_codes : gset pyval)
    (code_pattern code_header : string) (substitutions : substitutions_t)
    (codes_found tentative_codes : gmap K (gset pyval)) :
  search_codes texts valid_codes code_pattern code_header
    true (Some substitutions) = Ok (FoundTentative codes_found tentative_codes) →
  ∀ page, page ∈ dom texts →
    ∃ raw T,
      extract (search_pattern_of code_header code_pattern) (texts !!! page)
        = Ok raw ∧
      (None ∉ raw) ∧
      tentative_codes !! page = Some T ∧
      (∀ v, v ∈ T ↔
            ∃ st s, Some st ∈ raw ∧
                    s ∈ list_substitutions st substitutions ∧ v = Some s).
Proof.
  intros (tc & Hr & Hloop)%search_codes_Ok page Hpage%elem_of_keys.
  injection Hr as <-. simpl in Hloop.
  apply search_loop_Ok in Hloop as [Hin _].
  destruct (Hin page Hpage) as (raw & T & Hraw & HT & Htc & _).
  apply candidates_Some in HT as [Hn HT]. by exists raw, T.
Qed.

Lemma tentative_is_expanded_witness :
  search_codes (re := Sre.engine) (K := nat)
    {[1 := "REF: O0123"]} {[Some "00123"]} "[A-Z0-9]{5}" "REF:\s*"
    true (Some {["O"%char := "O0"]}) =
    Ok (FoundTentative {[1 := {[Some "00123"]}]}
          {[1 := {[Some "O0123"; Some "00123"]}]}) ∧
  1 ∈ dom ({[1 := "REF: O0123"]} : gmap nat string) ∧
  ∃ raw T,
    extract (re := Sre.engine) (search_pattern_of "REF:\s*" "[A-Z0-9]{5}")
      (({[1 := "REF: O0123"]} : gmap nat string) !!! 1) = Ok raw ∧
    (None ∉ raw) ∧
    ({[1 := {[Some "O0123"; Some "00123"]}]} : gmap nat (gset pyval)) !! 1
      = Some T ∧
    (∀ v, v ∈ T ↔
          ∃ st s, Some st ∈ raw ∧
                  s ∈ list_substitutions st {["O"%char := "O0"]} ∧
                  v = Some s).
Proof.
  assert (search_codes (re := Sre.engine) (K := nat)
            {[1 := "REF: O0123"]} {[Some "00123"]} "[A-Z0-9]{5}" "REF:\s*"
            true (Some {["O"%char := "O0"]}) =
          Ok (FoundTentative {[1 := {[Some "00123"]}]}
                {[1 := {[Some "O0123"; Some "00123"]}]})) as Hrun.
  { vm_compute. reflexivity. }
  assert (1 ∈ dom ({[1 := "REF: O0123"]} : gmap nat string)) as Hpage.
  { rewrite dom_singleton_L. by apply elem_of_singleton. }
  split; [exact Hrun|]. split; [exact Hpage|].
  exact (tentative_is_expanded _ _ _ _ _ _ _ Hrun 1 Hpage).
Defined.

(** ** Scenario A *)

(** C4. On the page "REF: O0123", with the header pattern "REF:\s*", the
    code pattern "[A-Z0-9]{5}", the dictionary [{"O": "O0"}] and the
    valid codes [{"00123"}], extraction gives the tentative set of
    "O0123" alone, its expansion the set of "O0123" and "00123", and
    validation the set of "00123" alone. *)
Theorem scenario_A :
  extract (re := Sre.engine) (search_pattern_of "REF:\s*" "[A-Z0-9]{5}")
    "REF: O0123" = Ok {[Some "O0123"]} ∧
  expand_with_substitutions (elements ({[Some "O0123"]} : gset pyval))
    {["O"%char := "O0"]} = Ok ["O0123"; "00123"] ∧
  candidates (Some {["O"%char := "O0"]}) {[Some "O0123"]} =
    Ok {[Some "O0123"; Some "00123"]} ∧
  search_codes (re := Sre.engine) (K := nat)
    {[1 := "REF: O0123"]} {[Some "00123"]} "[A-Z0-9]{5}" "REF:\s*"
    false (Some {["O"%char := "O0"]}) =
    Ok (Found {[1 := {[Some "00123"]}]}).
Proof. repeat split; vm_compute; reflexivity. Qed.

(** ** Patterns that do not compile *)

(** C6, as stated, fails twice.  With no page, a run whose header
    pattern does not compile, and whose composed pattern does not
    either, returns empty dictionaries.  And a header pattern and a code
    pattern neither of which compiles can compose to a pattern that
    does, and then the run returns results. *)
Lemma malformed_pattern_without_error :
  (re_compile (Re := Sre.engine) "[" = None ∧
   re_compile (Re := Sre.engine) (search_pattern_of "[" "x") = None ∧
   search_codes (re := Sre.engine) (K := nat) ∅ {[Some "x"]} "x" "["
     true None = Ok (FoundTentative ∅ ∅)) ∧
  (re_compile (Re := Sre.engine) "\" = None ∧
   re_compile (Re := Sre.engine) "(a" = None ∧
   search_codes (re := Sre.engine) (K := nat) {[1 := "(a"]} {[Some "a"]}
     "(a" "\" true None =
     Ok (FoundTentative {[1 := {[Some "a"]}]} {[1 := {[Some "a"]}]})).
Proof. repeat split; vm_compute; reflexivity. Qed.

(** C6, amended. When the composed pattern
    [code_header + "(" + code_pattern + ")"] does not compile, a run over
    at least one page raises [re.error], whatever the texts are, and
    returns no result; a run over no page raises nothing and returns
    empty dictionaries. *)
Theorem malformed_pattern_raises {re : Re} `{Countable K}
    (texts : gmap K string) (valid_codes : gset pyval)
    (code_pattern code_header : string) (show_tentative : bool)
    (substitutions : option substitutions_t) :
  re_compile (search_pattern_of code_header code_pattern) = None →
  search_codes texts valid_codes code_pattern code_header
    show_tentative substitutions =
  if decide (texts = ∅)
  then Ok (if show_tentative then FoundTentative ∅ ∅ else Found ∅)
  else Raise re_error.
Proof.
  intros Hpat. unfold search_codes. case_decide as Htexts.
  - apply keys_nil in Htexts as ->. simpl. by destruct show_tentative.
  - rewrite search_loop_re_error; [done..|]. by rewrite keys_nil.
Qed.

Lemma malformed_pattern_raises_witness :
  re_compile (Re := Sre.engine) (search_pattern_of "[" "x") = None ∧
  search_codes (re := Sre.engine) (K := nat)
    {[1 := "x"]} {[Some "x"]} "x" "[" false None =
  if decide (({[1 := "x"]} : gmap nat string) = ∅)
  then Ok (if false then FoundTentative ∅ ∅ else Found ∅)
  else Raise re_error.
Proof.
  assert (re_compile (Re := Sre.engine) (search_pattern_of "[" "x") = None)
    as Hpat.
  { vm_compute. reflexivity. }
  split; [exact Hpat|].
  exact (malformed_pattern_raises {[1 := "x"]} {[Some "x"]} "x" "[" false None
           Hpat).
Defined.


(** * Further properties *)

(** ** More on the Cartesian product and on strings *)

Lemma product_singletons {A} (l : list A) : product ((λ x, [x]) <$> l) = [l].
Proof. induction l as [|x l IH]; [done|]. csimpl. by rewrite IH. Qed.

Lemma product_app {A} (pools1 pools2 : list (list A)) :
  product (pools1 ++ pools2) =
  t1 ← product pools1; app t1 <$> product pools2.
Proof.
  induction pools1 as [|pool rest IH]; csimpl.
  - rewrite app_nil_r. by rewrite list_fmap_id.
  - rewrite IH. clear IH. induction pool as [|x pool IHp]; [done|]. csimpl.
    rewrite IHp. rewrite bind_app. f_equal.
    generalize (product rest). intros ts.
    induction ts as [|t ts IHt]; [done|]. csimpl. rewrite fmap_app, IHt.
    f_equal. by rewrite <- list_fmap_compose.
Qed.

Lemma NoDup_product {A} (pools : list (list A)) :
  Forall NoDup pools → NoDup (product pools).
Proof.
  induction 1 as [|pool rest Hpool _ IH]; simpl.
  - apply NoDup_singleton.
  - induction Hpool as [|x pool Hx _ IHp]; csimpl; [constructor|].
    apply NoDup_app. split; [|split; [|done]].
    + apply NoDup_fmap_2; [|done]. by intros t1 t2 [=].
    + intros t (t1 & -> & _)%list_elem_of_fmap
        (y & (t2 & [= <- _] & _)%list_elem_of_fmap & Hy)%list_elem_of_bind.
      done.
Qed.

Lemma list_ascii_of_string_app (s1 s2 : string) :
  list_ascii_of_string (s1 +:+ s2) =
  list_ascii_of_string s1 ++ list_ascii_of_string s2.
Proof. induction s1 as [|c s1 IH]; simpl; [done|]. by rewrite IH. Qed.

Lemma string_of_list_ascii_app (l1 l2 : list ascii) :
  string_of_list_ascii (l1 ++ l2) =
  string_of_list_ascii l1 +:+ string_of_list_ascii l2.
Proof. induction l1 as [|c l1 IH]; simpl; [done|]. by rewrite IH. Qed.

#[local] Instance string_of_list_ascii_inj : Inj (=) (=) string_of_list_ascii.
Proof.
  intros l1 l2 Heq. apply (f_equal list_ascii_of_string) in Heq.
  by rewrite !list_ascii_of_string_of_list_ascii in Heq.
Qed.

(** ** More on [list_substitutions] *)

Lemma pools_unmapped (l : list ascii) (substitutions : substitutions_t) :
  (∀ c, c ∈ l → substitutions !! c = None) →
  list_ascii_of_string <$> (sub_choice substitutions <$> l) =
  (λ x, [x]) <$> l.
Proof.
  intros Hnone. induction l as [|c l IH]; [done|]. csimpl.
  rewrite IH by (intros; apply Hnone; by right). f_equal.
  unfold sub_choice. rewrite Hnone; [done|by left].
Qed.

(** X1. A token none of whose characters is a key of the dictionary has
    itself as its only candidate; so has every token under the empty
    dictionary. *)
Theorem list_substitutions_unmapped (st : string)
    (substitutions : substitutions_t) :
  (∀ c, c ∈ list_ascii_of_string st → substitutions !! c = None) →
  list_substitutions st substitutions = [st].
Proof.
  intros Hnone. unfold list_substitutions, sub_space.
  rewrite pools_unmapped by done.
  rewrite product_singletons. csimpl. unfold join.
  by rewrite string_of_list_ascii_of_string.
Qed.

Lemma list_substitutions_unmapped_witness :
  (∀ c, c ∈ list_ascii_of_string "AB12" →
        (∅ : substitutions_t) !! c = None) ∧
  list_substitutions "AB12" ∅ = ["AB12"].
Proof.
  assert (∀ c, c ∈ list_ascii_of_string "AB12" →
               (∅ : substitutions_t) !! c = None) as Hnone.
  { intros c _. apply lookup_empty. }
  split; [exact Hnone|].
  exact (list_substitutions_unmapped "AB12" ∅ Hnone).
Defined.

(** X2. The token is one of its own candidates exactly when every
    character of it that is a key of the dictionary is among the
    characters of its own value. *)
Theorem list_substitutions_keeps_token (st : string)
    (substitutions : substitutions_t) :
  st ∈ list_substitutions st substitutions ↔
  ∀ c v, c ∈ list_ascii_of_string st → substitutions !! c = Some v →
         c ∈ list_ascii_of_string v.
Proof.
  rewrite elem_of_list_substitutions.
  induction (list_ascii_of_string st) as [|c l IH].
  - split; [|constructor]. intros _ c v Hc. by inversion Hc.
  - split.
    + inversion 1 as [|? ? ? ? Hc Hl]; subst. intros c' v Hc' Hv.
      apply elem_of_cons in Hc' as [->|Hc'].
      * unfold sub_choice in Hc. by rewrite Hv in Hc.
      * by apply (proj1 IH Hl c' v).
    + intros Hall. constructor.
      * unfold sub_choice. destruct (substitutions !! c) as [v|] eqn:Hv.
        -- apply (Hall c v); [by left|done].
        -- simpl. by left.
      * apply (proj2 IH). intros c' v Hc'. apply Hall. by right.
Qed.

(** X3. When the values of the dictionary at the characters of the token
    have no repeated character, no candidate is listed twice, and the
    set of the candidates has as many elements as the list. *)
Theorem list_substitutions_NoDup (st : string)
    (substitutions : substitutions_t) :
  (∀ c v, c ∈ list_ascii_of_string st → substitutions !! c = Some v →
          NoDup (list_ascii_of_string v)) →
  NoDup (list_substitutions st substitutions) ∧
  size (list_to_set (list_substitutions st substitutions) : gset string) =
  length (list_substitutions st substitutions).
Proof.
  intros Hvalues.
  assert (NoDup (list_substitutions st substitutions)) as Hnodup.
  { unfold list_substitutions, join. apply NoDup_fmap_2; [apply _|].
    apply NoDup_product. unfold sub_space. rewrite <- list_fmap_compose.
    apply Forall_fmap, Forall_forall. intros c Hc. simpl. unfold sub_choice.
    destruct (substitutions !! c) as [v|] eqn:Hv.
    - by apply (Hvalues c v).
    - apply NoDup_singleton. }
  split; [done|]. by apply size_list_to_set.
Qed.

Lemma list_substitutions_NoDup_witness :
  (∀ c v, c ∈ list_ascii_of_string "O0l" →
          ({["O"%char := "O0"; "l"%char := "1I"]} : substitutions_t) !! c
            = Some v →
          NoDup (list_ascii_of_string v)) ∧
  NoDup (list_substitutions "O0l" {["O"%char := "O0"; "l"%char := "1I"]}) ∧
  size (list_to_set
          (list_substitutions "O0l" {["O"%char := "O0"; "l"%char := "1I"]})
        : gset string) =
  length (list_substitutions "O0l" {["O"%char := "O0"; "l"%char := "1I"]}).
Proof.
  assert (∀ c v, c ∈ list_ascii_of_string "O0l" →
            ({["O"%char := "O0"; "l"%char := "1I"]} : substitutions_t) !! c
              = Some v →
            NoDup (list_ascii_of_string v)) as Hvalues.
  { intros c v Hc Hv. simpl in Hc.
    repeat (apply elem_of_cons in Hc as [->|Hc]); [| |
      |by apply not_elem_of_nil in Hc].
    - injection Hv as <-. apply (bool_decide_unpack _). vm_compute. exact I.
    - discriminate Hv.
    - injection Hv as <-. apply (bool_decide_unpack _). vm_compute. exact I. }
  split; [exact Hvalues|].
  exact (list_substitutions_NoDup _ _ Hvalues).
Defined.

(** X4. The candidates of a concatenation of two tokens are the
    concatenations of a candidate of the first with a candidate of the
    second, the second varying fastest. *)
Theorem list_substitutions_app (st1 st2 : string)
    (substitutions : substitutions_t) :
  list_substitutions (st1 +:+ st2) substitutions =
  s1 ← list_substitutions st1 substitutions;
  String.app s1 <$> list_substitutions st2 substitutions.
Proof.
  unfold list_substitutions, sub_space, join.
  rewrite list_ascii_of_string_app, !fmap_app, product_app.
  generalize (product (list_ascii_of_string <$>
    (sub_choice substitutions <$> list_ascii_of_string st1))).
  generalize (product (list_ascii_of_string <$>
    (sub_choice substitutions <$> list_ascii_of_string st2))).
  intros ts2 ts1. induction ts1 as [|t1 ts1 IH]; [done|]. csimpl.
  rewrite fmap_app, IH. f_equal. rewrite <- !list_fmap_compose.
  apply list_fmap_ext. intros i t2 _. simpl.
  apply string_of_list_ascii_app.
Qed.

(** X5. Every string that has, position by position, the token's own
    character where that one is not a key of the dictionary, and else a
    character of the dictionary's value for it, is a candidate. *)
Theorem list_substitutions_complete (st s : string)
    (substitutions : substitutions_t) :
  Forall2 (λ x c, match substitutions !! c with
                  | Some v => x ∈ list_ascii_of_string v
                  | None => x = c
                  end)
    (list_ascii_of_string s) (list_ascii_of_string st) →
  s ∈ list_substitutions st substitutions.
Proof.
  intros Hs. apply elem_of_list_substitutions.
  eapply Forall2_impl; [done|]. intros x c. unfold sub_choice.
  destruct (substitutions !! c); [done|]. intros ->. simpl. by left.
Qed.

Lemma list_substitutions_complete_witness :
  Forall2 (λ x c, match ({["O"%char := "O0"]} : substitutions_t) !! c with
                  | Some v => x ∈ list_ascii_of_string v
                  | None => x = c
                  end)
    (list_ascii_of_string "0O1") (list_ascii_of_string "OO1") ∧
  "0O1" ∈ list_substitutions "OO1" {["O"%char := "O0"]}.
Proof.
  assert (Forall2
            (λ x c, match ({["O"%char := "O0"]} : substitutions_t) !! c with
                    | Some v => x ∈ list_ascii_of_string v
                    | None => x = c
                    end)
            (list_ascii_of_string "0O1") (list_ascii_of_string "OO1")) as Hs.
  { simpl. repeat constructor. }
  split; [exact Hs|].
  exact (list_substitutions_complete _ _ _ Hs).
Defined.

(** ** More on [expand_with_substitutions] *)

Lemma expand_loop_raises (codes : list pyval)
    (substitutions : substitutions_t) (acc : list string) (e : exn) :
  expand_loop codes substitutions acc = Raise e → e = TypeError ∧ None ∈ codes.
Proof.
  revert acc. induction codes as [|[st|] codes IH]; intros acc; simpl.
  - done.
  - intros [-> Hin]%IH. split; [done|by right].
  - intros [= <-]. split; [done|by left].
Qed.

(** X6. On strings the expansion returns the candidates of the first
    token, then those of the second, and so on; their number is the sum
    of the numbers of candidates of the tokens. *)
Theorem expand_with_substitutions_strs (sts : list string)
    (substitutions : substitutions_t) :
  ∃ l, expand_with_substitutions (Some <$> sts) substitutions = Ok l ∧
       l = sts ≫= (λ st, list_substitutions st substitutions) ∧
       length l =
       sum_list ((λ st, length (list_substitutions st substitutions)) <$> sts).
Proof.
  eexists. split; [apply expand_loop_strs|]. split; [done|]. simpl.
  induction sts as [|st sts IH]; [done|]. csimpl.
  by rewrite length_app, IH.
Qed.

(** X7. The expansion raises [TypeError] when one of the codes is [None],
    raises nothing else, and returns when all the codes are strings. *)
Theorem expand_with_substitutions_TypeError (codes : list pyval)
    (substitutions : substitutions_t) :
  (expand_with_substitutions codes substitutions = Raise TypeError ↔
   None ∈ codes) ∧
  ((∃ l, expand_with_substitutions codes substitutions = Ok l) ↔
   None ∉ codes) ∧
  (∀ e, expand_with_substitutions codes substitutions = Raise e →
        e = TypeError).
Proof.
  unfold expand_with_substitutions. repeat split.
  - by intros [_ ?]%expand_loop_raises.
  - apply expand_loop_None.
  - intros [l Hl] Hn. by rewrite (expand_loop_None _ _ _ Hn) in Hl.
  - intros [sts ->]%all_strs. rewrite expand_loop_strs. by eexists.
  - by intros e [-> _]%expand_loop_raises.
Qed.

(** ** More on the loop of [search_codes] *)

Lemma group1_set_raises (matches : list Match) (acc : gset pyval) (e : exn) :
  group1_set matches acc = Raise e → e = IndexError.
Proof.
  revert acc. induction matches as [|m rest IH]; intros acc; simpl; [done|].
  unfold group. destruct (groups m !! 1); simpl; [apply IH|by intros [= <-]].
Qed.

Lemma candidates_raises (substitutions : option substitutions_t)
    (raw : gset pyval) (e : exn) :
  candidates substitutions raw = Raise e → e = TypeError ∧ None ∈ raw.
Proof.
  destruct substitutions as [subs|]; simpl; [|done].
  destruct (expand_with_substitutions (elements raw) subs) as [l|e'] eqn:Hl;
    [done|].
  intros [= <-]. apply expand_loop_raises in Hl as [-> Hn].
  by rewrite elem_of_elements in Hn.
Qed.

Lemma candidates_None_free (substitutions : substitutions_t)
    (raw : gset pyval) :
  None ∉ raw →
  candidates (Some substitutions) raw =
  Ok (list_to_set
        (Some <$> ((omap id (elements raw)) ≫=
                     λ st, list_substitutions st substitutions))).
Proof.
  intros Hn. unfold candidates.
  destruct (all_strs (elements raw)) as [sts Hsts].
  { by rewrite elem_of_elements. }
  unfold expand_with_substitutions. rewrite Hsts, expand_loop_strs. simpl.
  do 3 f_equal. clear. induction sts as [|st sts IH]; [done|]. csimpl.
  by rewrite <- IH.
Qed.

Section more_search_loop.
Context {re : Re} `{Countable K}.
Implicit Types (texts : gmap K string) (valid_codes : gset pyval)
  (substitutions : option substitutions_t) (pages : list K)
  (tentative_codes codes_found : gmap K (gset pyval)).

Lemma extract_raises pat text p e :
  re_compile pat = Some p → extract pat text = Raise e → e = IndexError.
Proof.
  intros Hp. unfold extract, finditer. rewrite Hp. simpl.
  apply group1_set_raises.
Qed.

Lemma search_loop_raises texts valid_codes pat substitutions pages
    tentative_codes codes_found p e :
  re_compile pat = Some p →
  search_loop texts valid_codes pat substitutions pages
    tentative_codes codes_found = Raise e →
  e ≠ re_error.
Proof.
  intros Hp. revert tentative_codes codes_found.
  induction pages as [|page rest IH]; intros tc cf; simpl; [done|].
  rewrite search_page_stages.
  destruct (extract pat (texts !!! page)) as [raw|e'] eqn:Hraw; simpl.
  - destruct (candidates substitutions raw) as [cand|e''] eqn:Hcand; simpl.
    + apply IH.
    + intros [= <-]. by apply candidates_raises in Hcand as [-> _].
  - intros [= <-]. by rewrite (extract_raises _ _ _ _ Hp Hraw).
Qed.

(** What a run over [pages] returns does not depend on the dictionaries
    it starts from at the pages it visits. *)
Lemma search_loop_lookup texts valid_codes pat substitutions pages
    tentative_codes codes_found tentative_codes' codes_found' :
  search_loop texts valid_codes pat substitutions pages
    tentative_codes codes_found = Ok (tentative_codes', codes_found') →
  ∀ page,
    (page ∈ pages →
     codes_found' !! page =
     (λ T, T ∩ valid_codes) <$> tentative_codes' !! page) ∧
    (page ∉ pages →
     tentative_codes' !! page = tentative_codes !! page ∧
     codes_found' !! page = codes_found !! page).
Proof.
  intros [Hin Hout]%search_loop_Ok page. split; [|apply Hout].
  intros (raw & cand & _ & _ & -> & ->)%Hin. done.
Qed.
End more_search_loop.

(** ** More on the result of a run *)

(** X8. Asking for the tentative codes changes neither the validated
    codes that a run returns nor whether it raises: the call without
    them returns the [codes_found] of the call with them. *)
Theorem show_tentative_keeps_codes_found {re : Re} `{Countable K}
    (texts : gmap K string) (valid_codes : gset pyval)
    (code_pattern code_header : string)
    (substitutions : option substitutions_t) :
  search_codes texts valid_codes code_pattern code_header false substitutions
  = (r ← search_codes texts valid_codes code_pattern code_header
           true substitutions;
     mret (Found (codes_found_of r))).
Proof.
  unfold search_codes.
  by destruct (search_loop _ _ _ _ _ _ _) as [[tc cf]|e].
Qed.

(** X9. Without a substitution dictionary the tentative set that a run
    records for a page is the set of the pattern matches of the page,
    and the validated set is what of it is a valid code. *)
Theorem tentative_is_raw {re : Re} `{Countable K}
    (texts : gmap K string) (valid_codes : gset pyval)
    (code_pattern code_header : string)
    (codes_found tentative_codes : gmap K (gset pyval)) :
  search_codes texts valid_codes code_pattern code_header true None =
    Ok (FoundTentative codes_found tentative_codes) →
  ∀ page, page ∈ dom texts →
    ∃ raw,
      extract (search_pattern_of code_header code_pattern) (texts !!! page)
        = Ok raw ∧
      tentative_codes !! page = Some raw ∧
      codes_found !! page = Some (raw ∩ valid_codes).
Proof.
  intros (tc & Hr & Hloop)%search_codes_Ok page Hpage%elem_of_keys.
  injection Hr as <-. simpl in Hloop.
  apply search_loop_Ok in Hloop as [Hin _].
  destruct (Hin page Hpage) as (raw & T & Hraw & [= <-] & Htc & Hcf).
  by exists raw.
Qed.

Lemma tentative_is_raw_witness :
  search_codes (re := Sre.engine) (K := nat)
    {[1 := "REF: AB12 REF: CD34"]} {[Some "AB12"]} "[A-Z]{2}\d{2}" "REF:\s*"
    true None =
    Ok (FoundTentative {[1 := {[Some "AB12"]}]}
          {[1 := {[Some "AB12"; Some "CD34"]}]}) ∧
  1 ∈ dom ({[1 := "REF: AB12 REF: CD34"]} : gmap nat string) ∧
  ∃ raw,
    extract (re := Sre.engine) (search_pattern_of "REF:\s*" "[A-Z]{2}\d{2}")
      (({[1 := "REF: AB12 REF: CD34"]} : gmap nat string) !!! 1) = Ok raw ∧
    ({[1 := {[Some "AB12"; Some "CD34"]}]} : gmap nat (gset pyval)) !! 1
      = Some raw ∧
    ({[1 := {[Some "AB12"]}]} : gmap nat (gset pyval)) !! 1
      = Some (raw ∩ {[Some "AB12"]}).
Proof.
  assert (search_codes (re := Sre.engine) (K := nat)
            {[1 := "REF: AB12 REF: CD34"]} {[Some "AB12"]}
            "[A-Z]{2}\d{2}" "REF:\s*" true None =
          Ok (FoundTentative {[1 := {[Some "AB12"]}]}
                {[1 := {[Some "AB12"; Some "CD34"]}]})) as Hrun.
  { vm_compute. reflexivity. }
  assert (1 ∈ dom ({[1 := "REF: AB12 REF: CD34"]} : gmap nat string))
    as Hpage.
  { rewrite dom_singleton_L. by apply elem_of_singleton. }
  split; [exact Hrun|]. split; [exact Hpage|].
  exact (tentative_is_raw _ _ _ _ _ _ Hrun 1 Hpage).
Defined.

(** X10. The validated dictionary is the tentative dictionary with every
    set cut down to the valid codes, and the valid codes have no other
    part in a run: with other valid codes the run returns the same
    tentative dictionary, cut down to those. *)
Theorem codes_found_of_tentative_codes {re : Re} `{Countable K}
    (texts : gmap K string) (valid_codes : gset pyval)
    (code_pattern code_header : string)
    (substitutions : option substitutions_t)
    (codes_found tentative_codes : gmap K (gset pyval)) :
  search_codes texts valid_codes code_pattern code_header true substitutions =
    Ok (FoundTentative codes_found tentative_codes) →
  codes_found = (λ T, T ∩ valid_codes) <$> tentative_codes ∧
  ∀ valid_codes',
    search_codes texts valid_codes' code_pattern code_header true substitutions
    = Ok (FoundTentative ((λ T, T ∩ valid_codes') <$> tentative_codes)
            tentative_codes).
Proof.
  intros (tc & Hr & Hloop)%search_codes_Ok. injection Hr as <-.
  simpl in Hloop. pose proof (search_loop_Ok _ _ _ _ _ _ _ _ _ Hloop) as [Hin Hout].
  assert (∀ V tc' cf',
            search_loop texts V (search_pattern_of code_header code_pattern)
              substitutions (keys texts) ∅ ∅ = Ok (tc', cf') →
            tc' = tentative_codes ∧ cf' = (λ T, T ∩ V) <$> tentative_codes)
    as Hany.
  { intros V tc' cf' [Hin' Hout']%search_loop_Ok.
    assert (tc' = tentative_codes) as ->.
    { apply map_eq. intros page.
      destruct (decide (page ∈ keys texts)) as [Hp|Hp].
      - destruct (Hin page Hp) as (raw & cand & Hraw & Hcand & -> & _).
        destruct (Hin' page Hp) as (raw' & cand' & Hraw' & Hcand' & -> & _).
        congruence.
      - destruct (Hout page Hp) as [-> _]. by destruct (Hout' page Hp) as [-> _]. }
    split; [done|]. apply map_eq. intros page. rewrite lookup_fmap.
    destruct (decide (page ∈ keys texts)) as [Hp|Hp].
    - destruct (Hin' page Hp) as (raw' & cand' & _ & _ & -> & ->). done.
    - destruct (Hout' page Hp) as [-> ->]. by rewrite lookup_empty. }
  split; [by apply (Hany _ _ _ Hloop)|]. intros V'.
  destruct (search_loop_returns texts V'
              (search_pattern_of code_header code_pattern) substitutions
              (keys texts) ∅ ∅) as (tc' & cf' & Hloop').
  { intros page Hp. destruct (Hin page Hp) as (raw & cand & ? & ? & _).
    by exists raw, cand. }
  unfold search_codes. rewrite Hloop'. simpl.
  by destruct (Hany _ _ _ Hloop') as [-> ->].
Qed.

Lemma codes_found_of_tentative_codes_witness :
  search_codes (re := Sre.engine) (K := nat)
    {[1 := "REF: AB12 REF: CD34"]} {[Some "AB12"]} "[A-Z]{2}\d{2}" "REF:\s*"
    true None =
    Ok (FoundTentative {[1 := {[Some "AB12"]}]}
          {[1 := {[Some "AB12"; Some "CD34"]}]}) ∧
  ({[1 := {[Some "AB12"]}]} : gmap nat (gset pyval)) =
    (λ T, T ∩ {[Some "AB12"]}) <$> {[1 := {[Some "AB12"; Some "CD34"]}]} ∧
  ∀ valid_codes',
    search_codes (re := Sre.engine) (K := nat)
      {[1 := "REF: AB12 REF: CD34"]} valid_codes' "[A-Z]{2}\d{2}" "REF:\s*"
      true None =
    Ok (FoundTentative
          ((λ T, T ∩ valid_codes') <$> {[1 := {[Some "AB12"; Some "CD34"]}]})
          {[1 := {[Some "AB12"; Some "CD34"]}]}).
Proof.
  assert (search_codes (re := Sre.engine) (K := nat)
            {[1 := "REF: AB12 REF: CD34"]} {[Some "AB12"]}
            "[A-Z]{2}\d{2}" "REF:\s*" true None =
          Ok (FoundTentative {[1 := {[Some "AB12"]}]}
                {[1 := {[Some "AB12"; Some "CD34"]}]})) as Hrun.
  { vm_compute. reflexivity. }
  split; [exact Hrun|].
  exact (codes_found_of_tentative_codes _ _ _ _ _ _ _ Hrun).
Defined.

(** X11. The sets of a page depend on the text of that page only: a run
    over that page alone returns, and returns for the page what the run
    over all the pages returns for it. *)
Theorem search_codes_page_alone {re : Re} `{Countable K}
    (texts : gmap K string) (valid_codes : gset pyval)
    (code_pattern code_header : string)
    (substitutions : option substitutions_t)
    (codes_found tentative_codes : gmap K (gset pyval))
    (page : K) (text : string) :
  search_codes texts valid_codes code_pattern code_header true substitutions =
    Ok (FoundTentative codes_found tentative_codes) →
  texts !! page = Some text →
  ∃ T F,
    tentative_codes !! page = Some T ∧ codes_found !! page = Some F ∧
    search_codes {[page := text]} valid_codes code_pattern code_header
      true substitutions =
    Ok (FoundTentative {[page := F]} {[page := T]}).
Proof.
  intros (tc & Hr & Hloop)%search_codes_Ok Htext. injection Hr as <-.
  simpl in Hloop. apply search_loop_Ok in Hloop as [Hin _].
  destruct (Hin page) as (raw & T & Hraw & HT & Htc & Hcf).
  { apply elem_of_keys, elem_of_dom. by eexists. }
  exists T, (T ∩ valid_codes). split; [done|]. split; [done|].
  unfold search_codes, keys. rewrite dom_singleton_L, elements_singleton.
  cbn [search_loop]. rewrite search_page_stages, lookup_total_singleton_eq.
  rewrite (lookup_total_correct _ _ _ Htext) in Hraw. rewrite Hraw.
  simpl. rewrite HT. simpl. by rewrite !insert_empty.
Qed.

Lemma search_codes_page_alone_witness :
  search_codes (re := Sre.engine) (K := nat)
    {[1 := "x123y456"; 2 := "no code"]} {[Some "456"]} "\d{3}" ""
    true None =
    Ok (FoundTentative {[1 := {[Some "456"]}; 2 := ∅]}
          {[1 := {[Some "123"; Some "456"]}; 2 := ∅]}) ∧
  ({[1 := "x123y456"; 2 := "no code"]} : gmap nat string) !! 1
    = Some "x123y456" ∧
  ∃ T F,
    ({[1 := {[Some "123"; Some "456"]}; 2 := ∅]} : gmap nat (gset pyval)) !! 1
      = Some T ∧
    ({[1 := {[Some "456"]}; 2 := ∅]} : gmap nat (gset pyval)) !! 1 = Some F ∧
    search_codes (re := Sre.engine) (K := nat) {[1 := "x123y456"]}
      {[Some "456"]} "\d{3}" "" true None =
    Ok (FoundTentative {[1 := F]} {[1 := T]}).
Proof.
  assert (search_codes (re := Sre.engine) (K := nat)
            {[1 := "x123y456"; 2 := "no code"]} {[Some "456"]} "\d{3}" ""
            true None =
          Ok (FoundTentative {[1 := {[Some "456"]}; 2 := ∅]}
                {[1 := {[Some "123"; Some "456"]}; 2 := ∅]})) as Hrun.
  { vm_compute. reflexivity. }
  assert (({[1 := "x123y456"; 2 := "no code"]} : gmap nat string) !! 1
          = Some "x123y456") as Htext.
  { reflexivity. }
  split; [exact Hrun|]. split; [exact Htext|].
  exact (search_codes_page_alone _ _ _ _ _ _ _ 1 _ Hrun Htext).
Defined.




(** X13. A header pattern with a group of its own takes the place of
    group 1.  When the pattern compiles and, on some page, group 1 of
    some match took no part in the match, a run with a substitution
    dictionary returns nothing: it raises, and not [re.error]. *)
Theorem none_group_raises {re : Re} `{Countable K}
    (texts : gmap K string) (valid_codes : gset pyval)
    (code_pattern code_header : string) (show_tentative : bool)
    (substitutions : substitutions_t) (p : pattern) (page : K) (m : Match) :
  re_compile (search_pattern_of code_header code_pattern) = Some p →
  page ∈ dom texts →
  m ∈ pattern_finditer p (texts !!! page) →
  groups m !! 1 = Some None →
  ∃ e, search_codes texts valid_codes code_pattern code_header
         show_tentative (Some substitutions) = Raise e ∧
       e ≠ re_error.
Proof.
  intros Hp Hpage%elem_of_keys Hm Hg. unfold search_codes.
  destruct (search_loop texts valid_codes
              (search_pattern_of code_header code_pattern)
              (Some substitutions) (keys texts) ∅ ∅)
    as [[tc cf]|e] eqn:Hloop.
  - exfalso. apply search_loop_Ok in Hloop as [Hin _].
    destruct (Hin page Hpage) as (raw & cand & Hraw & Hcand & _).
    apply candidates_Some in Hcand as [Hn _]. apply Hn.
    unfold extract, finditer in Hraw. rewrite Hp in Hraw. simpl in Hraw.
    apply (group1_set_Ok _ _ _ Hraw). right. by exists m.
  - exists e. split; [done|]. by eapply search_loop_raises.
Qed.

Lemma none_group_raises_witness :
  re_compile (Re := Sre.engine) (search_pattern_of "(REF)?" "\d") =
    Some (Sre.Cat (Sre.MaxRepeat 0 (Some 1)
                     (Sre.Subpattern 1
                        (Sre.Cat (Sre.In false [Sre.Literal "R"%char])
                        (Sre.Cat (Sre.In false [Sre.Literal "E"%char])
                        (Sre.Cat (Sre.In false [Sre.Literal "F"%char])
                           Sre.Empty)))))
            (Sre.Cat (Sre.Subpattern 2
                        (Sre.Cat (Sre.In false [Sre.Category false "d"%char])
                           Sre.Empty))
               Sre.Empty), 2) ∧
  1 ∈ dom ({[1 := "7"]} : gmap nat string) ∧
  {| groups := [Some "7"; None; Some "7"] |} ∈
    Sre.finditer
      (Sre.Cat (Sre.MaxRepeat 0 (Some 1)
                  (Sre.Subpattern 1
                     (Sre.Cat (Sre.In false [Sre.Literal "R"%char])
                     (Sre.Cat (Sre.In false [Sre.Literal "E"%char])
                     (Sre.Cat (Sre.In false [Sre.Literal "F"%char])
                        Sre.Empty)))))
         (Sre.Cat (Sre.Subpattern 2
                     (Sre.Cat (Sre.In false [Sre.Category false "d"%char])
                        Sre.Empty))
            Sre.Empty), 2)
      (({[1 := "7"]} : gmap nat string) !!! 1) ∧
  groups {| groups := [Some "7"; None; Some "7"] |} !! 1 = Some None ∧
  ∃ e, search_codes (re := Sre.engine) (K := nat) {[1 := "7"]} {[Some "7"]}
         "\d" "(REF)?" false (Some ∅) = Raise e ∧
       e ≠ re_error.
Proof.
  assert (re_compile (Re := Sre.engine) (search_pattern_of "(REF)?" "\d") =
          Some (Sre.Cat (Sre.MaxRepeat 0 (Some 1)
                  (Sre.Subpattern 1
                     (Sre.Cat (Sre.In false [Sre.Literal "R"%char])
                     (Sre.Cat (Sre.In false [Sre.Literal "E"%char])
                     (Sre.Cat (Sre.In false [Sre.Literal "F"%char])
                        Sre.Empty)))))
                  (Sre.Cat (Sre.Subpattern 2
                     (Sre.Cat (Sre.In false [Sre.Category false "d"%char])
                        Sre.Empty))
                     Sre.Empty), 2)) as Hp.
  { vm_compute. reflexivity. }
  assert (1 ∈ dom ({[1 := "7"]} : gmap nat string)) as Hpage.
  { rewrite dom_singleton_L. by apply elem_of_singleton. }
  assert ({| groups := [Some "7"; None; Some "7"] |} ∈
          pattern_finditer (Re := Sre.engine)
            (Sre.Cat (Sre.MaxRepeat 0 (Some 1)
                  (Sre.Subpattern 1
                     (Sre.Cat (Sre.In false [Sre.Literal "R"%char])
                     (Sre.Cat (Sre.In false [Sre.Literal "E"%char])
                     (Sre.Cat (Sre.In false [Sre.Literal "F"%char])
                        Sre.Empty)))))
                  (Sre.Cat (Sre.Subpattern 2
                     (Sre.Cat (Sre.In false [Sre.Category false "d"%char])
                        Sre.Empty))
                     Sre.Empty), 2)
            (({[1 := "7"]} : gmap nat string) !!! 1)) as Hm.
  { vm_compute. left. }
  assert (groups {| groups := [Some "7"; None; Some "7"] |} !! 1 = Some None)
    as Hg.
  { reflexivity. }
  split; [exact Hp|]. split; [exact Hpage|]. split; [exact Hm|].
  split; [exact Hg|].
  exact (none_group_raises (re := Sre.engine) {[1 := "7"]} {[Some "7"]}
           "\d" "(REF)?" false ∅ _ 1 _ Hp Hpage Hm Hg).
Defined.

Lemma group1_set_groups (matches : list Match) (acc T : gset pyval) :
  group1_set matches acc = Ok T →
  Forall (λ m, is_Some (groups m !! 1)) matches.
Proof.
  revert acc. induction matches as [|m rest IH]; intros acc; simpl.
  - constructor.
  - unfold group. destruct (groups m !! 1) as [v|] eqn:Hv; [|done]. simpl.
    intros Hrest%IH. constructor; [by eexists|done].
Qed.

(** X14. A run returns in two cases and in no other.  Either there is
    no page; or the composed pattern compiles and, on every page, every
    match has a group 1, whose value is a string when there is a
    substitution dictionary. *)
Theorem search_codes_returns_iff {re : Re} `{Countable K}
    (texts : gmap K string) (valid_codes : gset pyval)
    (code_pattern code_header : string) (show_tentative : bool)
    (substitutions : option substitutions_t) :
  (∃ r, search_codes texts valid_codes code_pattern code_header
          show_tentative substitutions = Ok r) ↔
  texts = ∅ ∨
  ∃ p, re_compile (search_pattern_of code_header code_pattern) = Some p ∧
       ∀ page, page ∈ dom texts →
         Forall (λ m, ∃ v, groups m !! 1 = Some v ∧
                           (is_Some substitutions → is_Some v))
           (pattern_finditer p (texts !!! page)).
Proof.
  split.
  - intros [r (tc & _ & Hloop)%search_codes_Ok].
    destruct (decide (texts = ∅)) as [|Hne]; [by left|right].
    destruct (re_compile (search_pattern_of code_header code_pattern))
      as [p|] eqn:Hp.
    + exists p. split; [done|]. intros page Hpage%elem_of_keys.
      apply search_loop_Ok in Hloop as [Hin _].
      destruct (Hin page Hpage) as (raw & cand & Hraw & Hcand & _).
      unfold extract, finditer in Hraw. rewrite Hp in Hraw. simpl in Hraw.
      pose proof (group1_set_groups _ _ _ Hraw) as Hgroups.
      rewrite Forall_forall in Hgroups. apply Forall_forall.
      intros m Hm. destruct (Hgroups m Hm) as [v Hv]. exists v.
      split; [done|]. intros [subs ->].
      apply candidates_Some in Hcand as [Hn _].
      destruct v as [st|]; [by eexists|]. exfalso. apply Hn.
      apply (group1_set_Ok _ _ _ Hraw). right. by exists m.
    + rewrite search_loop_re_error in Hloop; [done..|]. by rewrite keys_nil.
  - intros [->|(p & Hp & Hpages)]; unfold search_codes.
    + replace (keys (∅ : gmap K string)) with (@nil K)
        by (symmetry; by apply keys_nil).
      simpl. destruct show_tentative; by eexists.
    + destruct (search_loop_returns texts valid_codes
                  (search_pattern_of code_header code_pattern) substitutions
                  (keys texts) ∅ ∅) as (tc & cf & ->).
      * intros page Hpage%elem_of_keys. specialize (Hpages page Hpage).
        unfold extract, finditer. rewrite Hp. simpl.
        destruct (group1_set_returns (pattern_finditer p (texts !!! page)) ∅)
          as [raw Hraw].
        { eapply Forall_impl; [done|]. intros m (v & -> & _). by eexists. }
        rewrite Hraw. exists raw.
        destruct substitutions as [subs|]; [|by exists raw].
        destruct (candidates_returns (Some subs) raw) as [cand Hcand];
          [|by exists cand].
        intros Hn. apply (group1_set_Ok _ _ _ Hraw) in Hn
          as [Hn|(m & Hm & Hg)].
        { by apply not_elem_of_empty in Hn. }
        rewrite Forall_forall in Hpages.
        destruct (Hpages m Hm) as (v & Hv & Hsome).
        destruct Hsome as [st ->]; [by eexists|]. congruence.
      * simpl. destruct show_tentative; by eexists.
Qed.

Lemma list_substitutions_empty (st : string) : list_substitutions st ∅ = [st].
Proof.
  unfold list_substitutions, sub_space.
  rewrite pools_unmapped by (intros; apply lookup_empty).
  rewrite product_singletons. csimpl. unfold join.
  by rewrite string_of_list_ascii_of_string.
Qed.

Lemma candidates_empty (raw cand : gset pyval) :
  candidates (Some ∅) raw = Ok cand → cand = raw.
Proof.
  intros [Hn Hcand]%candidates_Some. apply set_eq. intros v.
  rewrite Hcand. split.
  - intros (st & s & Hst & Hs & ->).
    rewrite list_substitutions_empty in Hs.
    by apply list_elem_of_singleton in Hs as ->.
  - destruct v as [st|]; [|done]. intros Hst. exists st, st.
    split; [done|]. split; [|done]. rewrite list_substitutions_empty.
    by apply list_elem_of_singleton.
Qed.

(** X15. The empty dictionary changes nothing in what a run returns:
    a run with it that returns, returns what the run without a
    dictionary returns. *)
Theorem empty_substitutions_change_nothing {re : Re} `{Countable K}
    (texts : gmap K string) (valid_codes : gset pyval)
    (code_pattern code_header : string) (show_tentative : bool)
    (r : search_result K) :
  search_codes texts valid_codes code_pattern code_header
    show_tentative (Some ∅) = Ok r →
  search_codes texts valid_codes code_pattern code_header
    show_tentative None = Ok r.
Proof.
  unfold search_codes.
  assert (∀ pages tc cf x,
    search_loop texts valid_codes
      (search_pattern_of code_header code_pattern) (Some ∅) pages tc cf
      = Ok x →
    search_loop texts valid_codes
      (search_pattern_of code_header code_pattern) None pages tc cf
      = Ok x) as Hloop.
  { induction pages as [|page rest IH]; intros tc cf x; simpl; [done|].
    rewrite !search_page_stages.
    destruct (extract _ (texts !!! page)) as [raw|e]; [|done].
    cbn -[candidates].
    destruct (candidates (Some ∅) raw) as [cand|e] eqn:Hcand; [|done].
    apply candidates_empty in Hcand as ->. apply IH. }
  destruct (search_loop _ _ _ (Some ∅) _ _ _) as [x|e] eqn:Hx; [|done].
  by rewrite (Hloop _ _ _ _ Hx).
Qed.

Lemma empty_substitutions_change_nothing_witness :
  search_codes (re := Sre.engine) (K := nat)
    {[1 := "x123y456"]} {[Some "456"]} "\d{3}" "" true (Some ∅) =
    Ok (FoundTentative {[1 := {[Some "456"]}]}
          {[1 := {[Some "123"; Some "456"]}]}) ∧
  search_codes (re := Sre.engine) (K := nat)
    {[1 := "x123y456"]} {[Some "456"]} "\d{3}" "" true None =
    Ok (FoundTentative {[1 := {[Some "456"]}]}
          {[1 := {[Some "123"; Some "456"]}]}).
Proof.
  assert (search_codes (re := Sre.engine) (K := nat)
            {[1 := "x123y456"]} {[Some "456"]} "\d{3}" "" true (Some ∅) =
          Ok (FoundTentative {[1 := {[Some "456"]}]}
                {[1 := {[Some "123"; Some "456"]}]})) as Hrun.
  { vm_compute. reflexivity. }
  split; [exact Hrun|].
  exact (empty_substitutions_change_nothing _ _ _ _ _ _ Hrun).
Defined.

(** ** [load_codes]: the lines of the file *)

Section split.
Implicit Types (sep c : ascii) (s piece : string).

Lemma string_app_cons c s1 s2 : String c s1 +:+ s2 = String c (s1 +:+ s2).
Proof. done. Qed.

Lemma string_app_nil_l s : "" +:+ s = s.
Proof. done. Qed.

Lemma string_app_assoc s1 s2 s3 : (s1 +:+ s2) +:+ s3 = s1 +:+ (s2 +:+ s3).
Proof.
  induction s1 as [|c s1 IH]; [done|]. rewrite !string_app_cons. by f_equal.
Qed.

Lemma string_app_nil_r s : s +:+ "" = s.
Proof.
  induction s as [|c s IH]; [done|]. rewrite string_app_cons. by f_equal.
Qed.

Lemma split_not_nil sep s : split sep s ≠ [].
Proof.
  destruct s as [|c s]; simpl; [done|].
  destruct (Ascii.eqb c sep); [done|]. by destruct (split sep s).
Qed.

(** The first piece runs up to the first separator, and the other
    pieces are those of what follows it. *)
Lemma split_cons_inv sep s piece pieces :
  split sep s = piece :: pieces →
  (sep ∉ list_ascii_of_string piece) ∧
  ((pieces = [] ∧ s = piece) ∨
   ∃ s2, s = piece +:+ String sep s2 ∧ pieces = split sep s2).
Proof.
  revert piece pieces. induction s as [|c s IH]; intros piece pieces; simpl.
  - intros [= <- <-]. split; [by apply not_elem_of_nil|by left].
  - destruct (Ascii.eqb_spec c sep) as [->|Hne].
    + intros [= <- <-]. split; [by apply not_elem_of_nil|].
      right. by exists s.
    + destruct (split sep s) as [|p ps] eqn:Hs; [by apply split_not_nil in Hs|].
      intros [= <- <-]. destruct (IH p ps eq_refl) as [Hp Hcases]. split.
      * simpl. apply not_elem_of_cons. by split.
      * destruct Hcases as [[-> ->]|(s2 & -> & ->)]; [by left|].
        right. by exists s2.
Qed.

Lemma split_no_sep sep s :
  sep ∉ list_ascii_of_string s → split sep s = [s].
Proof.
  induction s as [|c s IH]; simpl; [done|].
  intros [Hne Hs]%not_elem_of_cons.
  destruct (Ascii.eqb_spec c sep) as [->|_]; [done|]. by rewrite IH.
Qed.

Lemma split_app sep s1 s2 :
  split sep (s1 +:+ String sep s2) = split sep s1 ++ split sep s2.
Proof.
  induction s1 as [|c s1 IH]; rewrite ?string_app_cons, ?string_app_nil_l;
    simpl.
  - by rewrite Ascii.eqb_refl.
  - destruct (Ascii.eqb c sep); [by rewrite IH|]. rewrite IH.
    destruct (split sep s1) as [|p ps] eqn:Hs; [by apply split_not_nil in Hs|].
    done.
Qed.

(** A piece is a stretch of the text without separator, between two
    separators or ends of the text. *)
Lemma elem_of_split sep s piece :
  piece ∈ split sep s ↔
  (sep ∉ list_ascii_of_string piece) ∧
  ∃ before after,
    s = before +:+ piece +:+ after ∧
    (before = "" ∨ ∃ b, before = b +:+ String sep "") ∧
    (after = "" ∨ ∃ a, after = String sep a).
Proof.
  split.
  - remember (length (split sep s)) as n eqn:Hn. revert s Hn.
    induction n as [|n IH]; intros s Hn Hin.
    { destruct (split sep s); [by inversion Hin|done]. }
    destruct (split sep s) as [|p ps] eqn:Hs; [done|].
    injection Hn as Hn.
    destruct (split_cons_inv _ _ _ _ Hs) as [Hp Hcases].
    apply elem_of_cons in Hin as [->|Hin].
    + split; [done|]. exists "". destruct Hcases as [[_ ->]|(s2 & -> & _)].
      * exists "". rewrite string_app_nil_r. split; [done|]. split; by left.
      * exists (String sep s2). split; [done|]. split; [by left|].
        right. by exists s2.
    + destruct Hcases as [[-> _]|(s2 & -> & ->)]; [by inversion Hin|].
      destruct (IH s2 Hn Hin) as (Hpiece & before & after & -> & Hb & Ha).
      split; [done|]. exists (p +:+ String sep before), after.
      split; [by rewrite !string_app_assoc|]. split; [|done]. right.
      destruct Hb as [->|[b ->]].
      * exists p. done.
      * exists (p +:+ String sep b). by rewrite string_app_assoc.
  - intros (Hpiece & before & after & -> & Hb & Ha).
    assert (piece ∈ split sep (piece +:+ after)) as Hin.
    { destruct Ha as [->|[a ->]].
      - rewrite string_app_nil_r, split_no_sep by done. by left.
      - rewrite split_app, split_no_sep by done. by left. }
    destruct Hb as [->|[b ->]]; [done|].
    rewrite string_app_assoc, string_app_cons, string_app_nil_l, split_app.
    apply elem_of_app. by right.
Qed.
End split.

Lemma elem_of_valid_codes_of (valid_codes_str : string) (v : pyval) :
  v ∈ valid_codes_of valid_codes_str ↔
  ∃ st, v = Some st ∧ st ≠ "" ∧ st ∈ split newline valid_codes_str.
Proof.
  unfold valid_codes_of. rewrite elem_of_list_to_set, list_elem_of_fmap.
  setoid_rewrite list_elem_of_filter. naive_solver.
Qed.

(** X16. The valid codes that are loaded from a text are its lines that
    are not empty, each as it stands: the stretches of the text without
    a newline that begin at the start of the text or after a newline,
    and end at the end of the text or before a newline. *)
Theorem valid_codes_of_lines (valid_codes_str : string) (v : pyval) :
  v ∈ valid_codes_of valid_codes_str ↔
  ∃ st, v = Some st ∧ st ≠ "" ∧
        (newline ∉ list_ascii_of_string st) ∧
        ∃ before after,
          valid_codes_str = before +:+ st +:+ after ∧
          (before = "" ∨ ∃ b, before = b +:+ String newline "") ∧
          (after = "" ∨ ∃ a, after = String newline a).
Proof.
  rewrite elem_of_valid_codes_of. setoid_rewrite elem_of_split. naive_solver.
Qed.

(** X17. The codes of two texts put one after the other with a newline
    between them are the codes of the one and the codes of the other;
    a text without a line gives no code, and neither a newline at the
    end nor an empty line adds one. *)
Theorem valid_codes_of_newline (s1 s2 : string) :
  valid_codes_of (s1 +:+ String newline s2) =
    valid_codes_of s1 ∪ valid_codes_of s2 ∧
  valid_codes_of "" = ∅ ∧
  valid_codes_of (s1 +:+ String newline "") = valid_codes_of s1 ∧
  valid_codes_of (s1 +:+ String newline (String newline s2)) =
    valid_codes_of (s1 +:+ String newline s2).
Proof.
  assert (∀ a b, valid_codes_of (a +:+ String newline b) =
                 valid_codes_of a ∪ valid_codes_of b) as Happ.
  { intros a b. unfold valid_codes_of.
    by rewrite split_app, filter_app, fmap_app, list_to_set_app_L. }
  assert (valid_codes_of "" = ∅) as Hnil by done.
  split; [apply Happ|]. split; [done|]. split.
  - rewrite Happ, Hnil. set_solver.
  - rewrite (Happ s1 (String newline s2)), (Happ s1 s2).
    change (String newline s2) with ("" +:+ String newline s2).
    rewrite (Happ "" s2), Hnil. set_solver.
Qed.

(** X18. Loading the text that has every code of a list on a line of its
    own gives back the codes of the list, when none of them is empty or
    has a newline in it. *)
Theorem valid_codes_of_unlines (codes : list string) :
  Forall (λ code, code ≠ "" ∧ newline ∉ list_ascii_of_string code) codes →
  valid_codes_of (unlines codes) = list_to_set (Some <$> codes).
Proof.
  induction 1 as [|code codes [Hne Hnl] _ IH]; [done|]. simpl.
  unfold valid_codes_of in *.
  rewrite split_app, filter_app, fmap_app, list_to_set_app_L, IH.
  rewrite split_no_sep by done. rewrite filter_cons_True by done.
  rewrite filter_nil. set_solver.
Qed.

Lemma valid_codes_of_unlines_witness :
  Forall (λ code, code ≠ "" ∧ newline ∉ list_ascii_of_string code)
    ["00123"; "AB12"] ∧
  valid_codes_of (unlines ["00123"; "AB12"]) =
  list_to_set (Some <$> ["00123"; "AB12"]).
Proof.
  assert (Forall (λ code, code ≠ "" ∧ newline ∉ list_ascii_of_string code)
            ["00123"; "AB12"]) as Hcodes.
  { repeat constructor; try done;
      simpl; intros Hin; repeat (apply elem_of_cons in Hin as [[=]|Hin]);
      by apply not_elem_of_nil in Hin. }
  split; [exact Hcodes|].
  exact (valid_codes_of_unlines _ Hcodes).
Defined.

(** ** [pdf2text] *)

Section read_pages.
Implicit Types (read : Z → outcome string) (page_range : list Z)
  (texts : gmap Z string).

Lemma read_pages_Returns read page_range texts texts' :
  read_pages read page_range texts = Returns texts' →
  (∀ k, k ∈ page_range →
        ∃ text, read k = Returns text ∧ texts' !! k = Some text) ∧
  (∀ k, k ∉ page_range → texts' !! k = texts !! k).
Proof.
  revert texts. induction page_range as [|k rest IH]; intros texts; simpl.
  - intros [= <-]. split; [by inversion 1|done].
  - destruct (read k) as [text|e] eqn:Hk; [|done].
    intros [Hin Hout]%IH. split.
    + intros k' Hk'. destruct (decide (k' ∈ rest)) as [Hr|Hr]; [by apply Hin|].
      apply elem_of_cons in Hk' as [->|?]; [|done]. exists text.
      split; [done|]. by rewrite (Hout k Hr), lookup_insert_eq.
    + intros k' [Hne Hr]%not_elem_of_cons.
      by rewrite (Hout k' Hr), lookup_insert_ne.
Qed.

Lemma read_pages_all read page_range texts :
  Forall (λ k, ∃ text, read k = Returns text) page_range →
  (∃ texts', read_pages read page_range texts = Returns texts') ∧
  started read page_range = page_range.
Proof.
  intros Hall. revert texts.
  induction Hall as [|k rest [text Hk] _ IH]; intros texts; simpl.
  - split; [by eexists|done].
  - rewrite Hk. destruct (IH (<[k := text]> texts)) as [Hret ->]. done.
Qed.

Lemma read_pages_first_failure read before k after texts e :
  Forall (λ k, ∃ text, read k = Returns text) before →
  read k = Raises e →
  read_pages read (before ++ k :: after) texts = Raises e ∧
  started read (before ++ k :: after) = before ++ [k].
Proof.
  intros Hall Hk. revert texts.
  induction Hall as [|k' rest [text Hk'] _ IH]; intros texts; simpl.
  - by rewrite Hk.
  - rewrite Hk'. destruct (IH (<[k' := text]> texts)) as [-> ->]. done.
Qed.
End read_pages.

Section pdf2text_loops.
Context {libraries : Libraries}.
Implicit Types (page_range : list Z) (texts : gmap Z string).

Lemma text_layer_loop_read_pages pdf_file file_path tessconf page_range texts :
  text_layer_loop pdf_file page_range texts =
  Io [] (read_pages (page_text pdf_file file_path tessconf true)
           page_range texts).
Proof.
  revert texts. induction page_range as [|k rest IH]; intros texts; [done|].
  simpl. unfold mbind, io_bind, call. simpl.
  destruct (getPage_extractText pdf_file (k - 1)) as [text|e]; [|done].
  by rewrite IH.
Qed.

Lemma ocr_loop_read_pages pdf_file file_path tessconf page_range texts :
  ocr_loop file_path tessconf page_range texts =
  Io (progress (started (page_text pdf_file file_path tessconf false)
                  page_range))
     (read_pages (page_text pdf_file file_path tessconf false)
        page_range texts).
Proof.
  revert texts. induction page_range as [|k rest IH]; intros texts; [done|].
  simpl. unfold mbind, io_bind, call, print, quiet. simpl.
  destruct (convert_from_path file_path k) as [[|image images]|e]; [done| |done].
  simpl. destruct (image_to_string image tessconf) as [text|e]; [|done].
  simpl. by rewrite IH.
Qed.

(** What [pdf2text] prints and how it ends, once the document is open
    and its number of pages known. *)
Lemma pdf2text_read_pages file_path (range : option (list Z)) tessconf
    text_layer pdf_file n_pages :
  PdfFileReader file_path = Returns pdf_file →
  getNumPages pdf_file = Returns n_pages →
  pdf2text file_path range tessconf text_layer =
  let pages := default (seqZ 1 n_pages) range in
  let read := page_text pdf_file file_path tessconf text_layer in
  Io (if text_layer then [] else progress (started read pages))
     (read_pages read pages ∅).
Proof.
  intros Hpdf Hn. unfold pdf2text, mbind, io_bind, call. simpl.
  rewrite Hpdf. simpl. rewrite Hn. simpl.
  replace (match range with
           | Some page_range0 => page_range0
           | None => seqZ 1 n_pages
           end) with (default (seqZ 1 n_pages) range)
    by by destruct range.
  destruct text_layer.
  - by rewrite (text_layer_loop_read_pages _ file_path tessconf).
  - by rewrite (ocr_loop_read_pages pdf_file).
Qed.
End pdf2text_loops.

(** X19. When the document opens and every page of the range is read,
    [pdf2text] returns a dictionary whose keys are the pages of the
    range (all the pages from 1 on when no range is given) and whose
    values are the texts of these pages; the recognition prints one line
    for every page of the range, in order, and the text layer none. *)
Theorem pdf2text_returns {libraries : Libraries} (file_path : string)
    (page_range : option (list Z)) (tessconf : option string)
    (text_layer : bool) (pdf_file : pdf_file_reader) (n_pages : Z) :
  PdfFileReader file_path = Returns pdf_file →
  getNumPages pdf_file = Returns n_pages →
  Forall (λ k, ∃ text, page_text pdf_file file_path tessconf text_layer k
                       = Returns text)
    (default (seqZ 1 n_pages) page_range) →
  ∃ texts,
    pdf2text file_path page_range tessconf text_layer =
      Io (if text_layer then []
          else progress (default (seqZ 1 n_pages) page_range))
         (Returns texts) ∧
    dom texts = list_to_set (default (seqZ 1 n_pages) page_range) ∧
    ∀ k, k ∈ default (seqZ 1 n_pages) page_range →
         page_text pdf_file file_path tessconf text_layer k =
         Returns (texts !!! k).
Proof.
  intros Hpdf Hn Hall.
  rewrite (pdf2text_read_pages _ _ _ _ _ _ Hpdf Hn). simpl.
  destruct (read_pages_all _ _ ∅ Hall) as [[texts Htexts] ->].
  exists texts. rewrite Htexts. split; [done|].
  apply read_pages_Returns in Htexts as [Hin Hout]. split.
  - apply set_eq. intros k. rewrite elem_of_dom, elem_of_list_to_set.
    split.
    + intros Hk.
      destruct (decide (k ∈ default (seqZ 1 n_pages) page_range)); [done|].
      rewrite Hout, lookup_empty in Hk by done. by destruct Hk.
    + intros (text & _ & ->)%Hin. by eexists.
  - intros k (text & -> & Hk)%Hin. by rewrite (lookup_total_correct _ _ _ Hk).
Qed.

Lemma pdf2text_returns_witness :
  PdfFileReader (Libraries := Sample.libraries) "doc.pdf" = Returns tt ∧
  getNumPages (Libraries := Sample.libraries) tt = Returns 2%Z ∧
  Forall (λ k, ∃ text, page_text (libraries := Sample.libraries) tt
                         "doc.pdf" None false k = Returns text)
    (default (seqZ 1 2) None) ∧
  ∃ texts,
    pdf2text (libraries := Sample.libraries) "doc.pdf" None None false =
      Io (progress (default (seqZ 1 2) None)) (Returns texts) ∧
    dom texts = list_to_set (default (seqZ 1 2) None) ∧
    ∀ k, k ∈ default (seqZ 1 2) None →
         page_text (libraries := Sample.libraries) tt "doc.pdf" None false k =
         Returns (texts !!! k).
Proof.
  assert (PdfFileReader (Libraries := Sample.libraries) "doc.pdf" = Returns tt)
    as Hpdf by reflexivity.
  assert (getNumPages (Libraries := Sample.libraries) tt = Returns 2%Z)
    as Hn by reflexivity.
  assert (Forall (λ k, ∃ text, page_text (libraries := Sample.libraries) tt
                                 "doc.pdf" None false k = Returns text)
            (default (seqZ 1 2) None)) as Hall.
  { repeat constructor; by eexists. }
  split; [exact Hpdf|]. split; [exact Hn|]. split; [exact Hall|].
  exact (pdf2text_returns (libraries := Sample.libraries) "doc.pdf" None None
           false tt 2 Hpdf Hn Hall).
Defined.

(** X20. The first page that is not read ends [pdf2text] with the
    exception of that page: no text is returned, those of the pages
    read before it neither, the pages after it are not started, and
    the recognition has printed the lines of the pages up to that one. *)
Theorem pdf2text_first_failure {libraries : Libraries} (file_path : string)
    (page_range : option (list Z)) (tessconf : option string)
    (text_layer : bool) (pdf_file : pdf_file_reader) (n_pages : Z)
    (before after : list Z) (k : Z) (e : error) :
  PdfFileReader file_path = Returns pdf_file →
  getNumPages pdf_file = Returns n_pages →
  default (seqZ 1 n_pages) page_range = before ++ k :: after →
  Forall (λ k, ∃ text, page_text pdf_file file_path tessconf text_layer k
                       = Returns text) before →
  page_text pdf_file file_path tessconf text_layer k = Raises e →
  pdf2text file_path page_range tessconf text_layer =
  Io (if text_layer then [] else progress (before ++ [k])) (Raises e).
Proof.
  intros Hpdf Hn Hrange Hbefore Hk.
  rewrite (pdf2text_read_pages _ _ _ _ _ _ Hpdf Hn). simpl. rewrite Hrange.
  by destruct (read_pages_first_failure _ _ _ after ∅ _ Hbefore Hk) as [-> ->].
Qed.

Lemma pdf2text_first_failure_witness :
  PdfFileReader (Libraries := Sample.libraries) "doc.pdf" = Returns tt ∧
  getNumPages (Libraries := Sample.libraries) tt = Returns 2%Z ∧
  default (seqZ 1 2) (Some [2; 3; 1]%Z) = [2%Z] ++ 3%Z :: [1%Z] ∧
  Forall (λ k, ∃ text, page_text (libraries := Sample.libraries) tt
                         "doc.pdf" None false k = Returns text) [2%Z] ∧
  page_text (libraries := Sample.libraries) tt "doc.pdf" None false 3 =
    Raises (Builtin IndexError) ∧
  pdf2text (libraries := Sample.libraries) "doc.pdf" (Some [2; 3; 1]%Z)
    None false =
  Io (progress ([2%Z] ++ [3%Z])) (Raises (Builtin IndexError)).
Proof.
  assert (PdfFileReader (Libraries := Sample.libraries) "doc.pdf" = Returns tt)
    as Hpdf by reflexivity.
  assert (getNumPages (Libraries := Sample.libraries) tt = Returns 2%Z)
    as Hn by reflexivity.
  assert (default (seqZ 1 2) (Some [2; 3; 1]%Z) = [2%Z] ++ 3%Z :: [1%Z])
    as Hrange by reflexivity.
  assert (Forall (λ k, ∃ text, page_text (libraries := Sample.libraries) tt
                                 "doc.pdf" None false k = Returns text)
            [2%Z]) as Hbefore.
  { repeat constructor; by eexists. }
  assert (page_text (libraries := Sample.libraries) tt "doc.pdf" None false 3
          = Raises (Builtin IndexError)) as Hk by reflexivity.
  split; [exact Hpdf|]. split; [exact Hn|]. split; [exact Hrange|].
  split; [exact Hbefore|]. split; [exact Hk|].
  exact (pdf2text_first_failure (libraries := Sample.libraries) "doc.pdf"
           (Some [2; 3; 1]%Z) None false tt 2 [2%Z] [1%Z] 3 _
           Hpdf Hn Hrange Hbefore Hk).
Defined.

Lemma pdf2text_Returns_inv {libraries : Libraries} (file_path : string)
    (page_range : option (list Z)) (tessconf : option string)
    (text_layer : bool) (out : list string) (texts : gmap Z string) :
  pdf2text file_path page_range tessconf text_layer = Io out (Returns texts) →
  ∃ pdf_file n_pages,
    PdfFileReader file_path = Returns pdf_file ∧
    getNumPages pdf_file = Returns n_pages ∧
    read_pages (page_text pdf_file file_path tessconf text_layer)
      (default (seqZ 1 n_pages) page_range) ∅ = Returns texts ∧
    out = (if text_layer then []
           else progress (default (seqZ 1 n_pages) page_range)).
Proof.
  destruct (PdfFileReader file_path) as [pdf_file|e] eqn:Hpdf;
    [|by unfold pdf2text, mbind, io_bind, call; rewrite Hpdf].
  destruct (getNumPages pdf_file) as [n_pages|e] eqn:Hn;
    [|by unfold pdf2text, mbind, io_bind, call; rewrite Hpdf; simpl;
         rewrite Hn].
  rewrite (pdf2text_read_pages _ _ _ _ _ _ Hpdf Hn). simpl.
  intros [= <- Htexts]. exists pdf_file, n_pages.
  split; [done|]. split; [done|]. split; [done|].
  destruct text_layer; [done|]. f_equal.
  apply read_pages_all with (texts := ∅). apply Forall_forall.
  intros k Hk. apply read_pages_Returns in Htexts as [Hin _].
  destruct (Hin k Hk) as (text & ? & _). by exists text.
Qed.

(** X21. Without a page range, the dictionary that [pdf2text] returns has
    the pages from 1 to the number of pages of the document as its keys,
    and the recognition has printed a line for each of them. *)
Theorem pdf2text_all_pages {libraries : Libraries} (file_path : string)
    (tessconf : option string) (text_layer : bool)
    (out : list string) (texts : gmap Z string) :
  pdf2text file_path None tessconf text_layer = Io out (Returns texts) →
  ∃ pdf_file n_pages,
    PdfFileReader file_path = Returns pdf_file ∧
    getNumPages pdf_file = Returns n_pages ∧
    (∀ k, k ∈ dom texts ↔ (1 ≤ k ≤ n_pages)%Z) ∧
    out = (if text_layer then [] else progress (seqZ 1 n_pages)).
Proof.
  intros (pdf_file & n_pages & Hpdf & Hn & Htexts & ->)%pdf2text_Returns_inv.
  exists pdf_file, n_pages. split; [done|]. split; [done|]. split; [|done].
  apply read_pages_Returns in Htexts as [Hin Hout]. simpl in *.
  intros k. rewrite elem_of_dom. split.
  - intros Hk. destruct (decide (k ∈ seqZ 1 n_pages)) as [Hr|Hr].
    + apply elem_of_seqZ in Hr. lia.
    + rewrite Hout, lookup_empty in Hk by done. by destruct Hk.
  - intros Hk. destruct (Hin k) as (text & _ & ->); [|by eexists].
    apply elem_of_seqZ. lia.
Qed.

Lemma pdf2text_all_pages_witness :
  pdf2text (libraries := Sample.libraries) "doc.pdf" None None true =
    Io [] (Returns {[1%Z := "REF: O0123"; 2%Z := "REF: AB12"]}) ∧
  ∃ pdf_file n_pages,
    PdfFileReader (Libraries := Sample.libraries) "doc.pdf"
      = Returns pdf_file ∧
    getNumPages (Libraries := Sample.libraries) pdf_file = Returns n_pages ∧
    (∀ k, k ∈ dom ({[1%Z := "REF: O0123"; 2%Z := "REF: AB12"]}
                    : gmap Z string) ↔ (1 ≤ k ≤ n_pages)%Z) ∧
    [] = (if true then [] else progress (seqZ 1 n_pages)).
Proof.
  assert (pdf2text (libraries := Sample.libraries) "doc.pdf" None None true =
          Io [] (Returns {[1%Z := "REF: O0123"; 2%Z := "REF: AB12"]}))
    as Hrun.
  { vm_compute. reflexivity. }
  split; [exact Hrun|].
  exact (pdf2text_all_pages (libraries := Sample.libraries) "doc.pdf" None
           true [] _ Hrun).
Defined.

(** ** [detect_codes] *)

Section detect_codes_facts.
Context {re : Re} {libraries : Libraries}.

Lemma pdf2text_text_layer_tessconf file_path page_range tessconf tessconf' :
  pdf2text file_path page_range tessconf true =
  pdf2text file_path page_range tessconf' true.
Proof. done. Qed.

Lemma search_codes_dom `{Countable K} (texts : gmap K string) valid_codes
    code_pattern code_header show_tentative substitutions
    (r : search_result K) :
  search_codes texts valid_codes code_pattern code_header
    show_tentative substitutions = Ok r →
  dom (codes_found_of r) = dom texts ∧
  ∀ page F v, codes_found_of r !! page = Some F → v ∈ F → v ∈ valid_codes.
Proof.
  intros (tc & _ & Hloop)%search_codes_Ok.
  apply search_loop_Ok in Hloop as [Hin Hout]. split.
  - apply set_eq. intros page. rewrite <- elem_of_keys, elem_of_dom. split.
    + intros Hsome. destruct (decide (page ∈ keys texts)) as [|Hn]; [done|].
      destruct (Hout page Hn) as [_ Heq]. rewrite Heq, lookup_empty in Hsome.
      by destruct Hsome.
    + intros (? & ? & _ & _ & _ & ->)%Hin. by eexists.
  - intros page F v HF Hv. destruct (decide (page ∈ keys texts)) as [Hp|Hp].
    + destruct (Hin page Hp) as (? & cand & _ & _ & _ & Hcf).
      rewrite Hcf in HF. injection HF as <-. set_solver.
    + destruct (Hout page Hp) as [_ Heq]. by rewrite Heq, lookup_empty in HF.
Qed.

Lemma detect_codes_Returns_inv file_path valid_codes_path code_pattern
    code_header page_range text_layer show_tentative substitutions
    lang oem psm extra_config out r :
  detect_codes file_path valid_codes_path code_pattern code_header
    page_range text_layer show_tentative substitutions
    lang oem psm extra_config = Io out (Returns r) →
  ∃ valid_codes_str texts,
    open_read valid_codes_path = Returns valid_codes_str ∧
    pdf2text file_path page_range
      (Some (tessconf_of extra_config valid_codes_path lang oem psm))
      text_layer = Io out (Returns texts) ∧
    search_codes texts (valid_codes_of valid_codes_str) code_pattern
      code_header show_tentative substitutions = Ok r.
Proof.
  unfold detect_codes, load_codes, mbind, io_bind, call, quiet.
  cbn -[pdf2text search_codes].
  destruct (open_read valid_codes_path) as [content|e]; [|done].
  cbn -[pdf2text search_codes].
  destruct (pdf2text _ _ _ _) as [out' [texts|e]]; [|done].
  cbn -[pdf2text search_codes].
  destruct (search_codes texts _ _ _ _ _) as [r'|e] eqn:Hr; [|by intros [=]].
  rewrite app_nil_r. intros [= <- <-]. by exists content, texts.
Qed.
End detect_codes_facts.

(** X22. With the text layer, the settings of the recognition engine
    (language, engine mode, segmentation mode, extra configuration) have
    no part in what [detect_codes] prints, returns or raises. *)
Theorem detect_codes_text_layer_settings {re : Re} {libraries : Libraries}
    (file_path valid_codes_path code_pattern code_header : string)
    (page_range : option (list Z)) (show_tentative : bool)
    (substitutions : option substitutions_t)
    (lang lang' : string) (oem oem' psm psm' : Z)
    (extra_config extra_config' : string) :
  detect_codes file_path valid_codes_path code_pattern code_header
    page_range true show_tentative substitutions
    lang oem psm extra_config =
  detect_codes file_path valid_codes_path code_pattern code_header
    page_range true show_tentative substitutions
    lang' oem' psm' extra_config'.
Proof.
  unfold detect_codes.
  destruct (load_codes valid_codes_path) as [out [valid_codes|e]]; [|done].
  unfold mbind, io_bind. simpl.
  by rewrite (pdf2text_text_layer_tessconf file_path page_range _
                (Some (tessconf_of extra_config' valid_codes_path
                         lang' oem' psm'))).
Qed.

(** X23. A pattern that does not compile is found out only after the
    pages: when the file of codes and every page of a range that is not
    empty are read, [detect_codes] has read (and, with the recognition,
    printed the line of) every page before it raises [re.error]. *)
Theorem detect_codes_late_re_error {re : Re} {libraries : Libraries}
    (file_path valid_codes_path code_pattern code_header : string)
    (page_range : option (list Z)) (text_layer show_tentative : bool)
    (substitutions : option substitutions_t)
    (lang : string) (oem psm : Z) (extra_config : string)
    (valid_codes_str : string) (pdf_file : pdf_file_reader) (n_pages : Z) :
  open_read valid_codes_path = Returns valid_codes_str →
  PdfFileReader file_path = Returns pdf_file →
  getNumPages pdf_file = Returns n_pages →
  default (seqZ 1 n_pages) page_range ≠ [] →
  Forall (λ k, ∃ text,
            page_text pdf_file file_path
              (Some (tessconf_of extra_config valid_codes_path lang oem psm))
              text_layer k = Returns text)
    (default (seqZ 1 n_pages) page_range) →
  re_compile (search_pattern_of code_header code_pattern) = None →
  detect_codes file_path valid_codes_path code_pattern code_header
    page_range text_layer show_tentative substitutions
    lang oem psm extra_config =
  Io (if text_layer then []
      else progress (default (seqZ 1 n_pages) page_range))
     (Raises (Builtin re_error)).
Proof.
  intros Hcodes Hpdf Hn Hne Hall Hpat.
  unfold detect_codes, load_codes, mbind, io_bind, call, quiet. simpl.
  rewrite Hcodes. simpl.
  rewrite (pdf2text_read_pages _ _ _ _ _ _ Hpdf Hn). simpl.
  destruct (read_pages_all _ _ ∅ Hall) as [[texts Htexts] ->].
  rewrite Htexts. simpl.
  assert (keys texts ≠ []) as Hkeys.
  { rewrite keys_nil. intros ->.
    apply read_pages_Returns in Htexts as [Hin _].
    destruct (default (seqZ 1 n_pages) page_range) as [|k rest]; [done|].
    destruct (Hin k) as (text & _ & Hk); [by left|].
    by rewrite lookup_empty in Hk. }
  unfold search_codes. rewrite search_loop_re_error by done. simpl.
  by rewrite app_nil_r.
Qed.

Lemma detect_codes_late_re_error_witness :
  open_read (Libraries := Sample.libraries) "codes.txt" =
    Returns (unlines ["00123"; "AB12"]) ∧
  PdfFileReader (Libraries := Sample.libraries) "doc.pdf" = Returns tt ∧
  getNumPages (Libraries := Sample.libraries) tt = Returns 2%Z ∧
  default (seqZ 1 2) None ≠ [] ∧
  Forall (λ k, ∃ text,
            page_text (libraries := Sample.libraries) tt "doc.pdf"
              (Some (tessconf_of (libraries := Sample.libraries)
                       "" "codes.txt" "eng" 3 3))
              false k = Returns text)
    (default (seqZ 1 2) None) ∧
  re_compile (Re := Sre.engine) (search_pattern_of "REF:\s*" "[A-Z") = None ∧
  detect_codes (re := Sre.engine) (libraries := Sample.libraries)
    "doc.pdf" "codes.txt" "[A-Z" "REF:\s*" None false true None
    "eng" 3 3 "" =
  Io (progress (default (seqZ 1 2) None)) (Raises (Builtin re_error)).
Proof.
  assert (open_read (Libraries := Sample.libraries) "codes.txt" =
          Returns (unlines ["00123"; "AB12"])) as Hcodes by reflexivity.
  assert (PdfFileReader (Libraries := Sample.libraries) "doc.pdf" = Returns tt)
    as Hpdf by reflexivity.
  assert (getNumPages (Libraries := Sample.libraries) tt = Returns 2%Z)
    as Hn by reflexivity.
  assert (default (seqZ 1 2) None ≠ []) as Hne by done.
  assert (Forall (λ k, ∃ text,
            page_text (libraries := Sample.libraries) tt "doc.pdf"
              (Some (tessconf_of (libraries := Sample.libraries)
                       "" "codes.txt" "eng" 3 3))
              false k = Returns text)
            (default (seqZ 1 2) None)) as Hall.
  { repeat constructor; by eexists. }
  assert (re_compile (Re := Sre.engine) (search_pattern_of "REF:\s*" "[A-Z")
          = None) as Hpat.
  { vm_compute. reflexivity. }
  split; [exact Hcodes|]. split; [exact Hpdf|]. split; [exact Hn|].
  split; [exact Hne|]. split; [exact Hall|]. split; [exact Hpat|].
  exact (detect_codes_late_re_error (re := Sre.engine)
           (libraries := Sample.libraries) "doc.pdf" "codes.txt" "[A-Z"
           "REF:\s*" None false true None "eng" 3 3 "" _ tt 2
           Hcodes Hpdf Hn Hne Hall Hpat).
Defined.

(** X24. When [detect_codes] returns, the file of the codes and the
    document were read, the keys of the validated dictionary are the
    pages of the range (all the pages from 1 on when no range is given),
    and every validated code is a line of the file of the codes. *)
Theorem detect_codes_returned {re : Re} {libraries : Libraries}
    (file_path valid_codes_path code_pattern code_header : string)
    (page_range : option (list Z)) (text_layer show_tentative : bool)
    (substitutions : option substitutions_t)
    (lang : string) (oem psm : Z) (extra_config : string)
    (out : list string) (r : search_result Z) :
  detect_codes file_path valid_codes_path code_pattern code_header
    page_range text_layer show_tentative substitutions
    lang oem psm extra_config = Io out (Returns r) →
  ∃ valid_codes_str pdf_file n_pages,
    open_read valid_codes_path = Returns valid_codes_str ∧
    PdfFileReader file_path = Returns pdf_file ∧
    getNumPages pdf_file = Returns n_pages ∧
    dom (codes_found_of r) =
      list_to_set (default (seqZ 1 n_pages) page_range) ∧
    (∀ page F v, codes_found_of r !! page = Some F → v ∈ F →
       ∃ st, v = Some st ∧ st ≠ "" ∧ st ∈ split newline valid_codes_str) ∧
    out = (if text_layer then []
           else progress (default (seqZ 1 n_pages) page_range)).
Proof.
  intros (content & texts & Hcodes & Htexts & Hr)%detect_codes_Returns_inv.
  apply pdf2text_Returns_inv in Htexts
    as (pdf_file & n_pages & Hpdf & Hn & Htexts & ->).
  apply search_codes_dom in Hr as [Hdom Hvalid].
  exists content, pdf_file, n_pages. repeat (split; [done|]).
  split; [|split; [|done]].
  - rewrite Hdom. apply read_pages_Returns in Htexts as [Hin Hout].
    apply set_eq. intros k. rewrite elem_of_dom, elem_of_list_to_set. split.
    + intros Hk.
      destruct (decide (k ∈ default (seqZ 1 n_pages) page_range)); [done|].
      rewrite Hout, lookup_empty in Hk by done. by destruct Hk.
    + intros (text & _ & ->)%Hin. by eexists.
  - intros page F v HF Hv. apply elem_of_valid_codes_of. by eapply Hvalid.
Qed.

Lemma detect_codes_returned_witness :
  detect_codes (re := Sre.engine) (libraries := Sample.libraries)
    "doc.pdf" "codes.txt" "[A-Z0-9]{4,5}" "REF:\s*" None false false
    (Some {["O"%char := "O0"]}) "eng" 3 3 "" =
    Io ["Processing page 1"; "Processing page 2"]
       (Returns (Found {[1%Z := {[Some "00123"]}; 2%Z := {[Some "AB12"]}]})) ∧
  ∃ valid_codes_str pdf_file n_pages,
    open_read (Libraries := Sample.libraries) "codes.txt"
      = Returns valid_codes_str ∧
    PdfFileReader (Libraries := Sample.libraries) "doc.pdf"
      = Returns pdf_file ∧
    getNumPages (Libraries := Sample.libraries) pdf_file = Returns n_pages ∧
    dom (codes_found_of
           (Found ({[1%Z := {[Some "00123"]}; 2%Z := {[Some "AB12"]}]}
                   : gmap Z (gset pyval)))) =
      list_to_set (default (seqZ 1 n_pages) None) ∧
    (∀ page F v,
       codes_found_of
         (Found ({[1%Z := {[Some "00123"]}; 2%Z := {[Some "AB12"]}]}
                 : gmap Z (gset pyval))) !! page = Some F →
       v ∈ F →
       ∃ st, v = Some st ∧ st ≠ "" ∧ st ∈ split newline valid_codes_str) ∧
    ["Processing page 1"; "Processing page 2"] =
      (if false then [] else progress (default (seqZ 1 n_pages) None)).
Proof.
  assert (detect_codes (re := Sre.engine) (libraries := Sample.libraries)
            "doc.pdf" "codes.txt" "[A-Z0-9]{4,5}" "REF:\s*" None false false
            (Some {["O"%char := "O0"]}) "eng" 3 3 "" =
          Io ["Processing page 1"; "Processing page 2"]
             (Returns (Found {[1%Z := {[Some "00123"]};
                               2%Z := {[Some "AB12"]}]}))) as Hrun.
  { vm_compute. reflexivity. }
  split; [exact Hrun|].
  exact (detect_codes_returned (re := Sre.engine)
           (libraries := Sample.libraries) _ _ _ _ _ _ _ _ _ _ _ _ _ _ Hrun).
Defined.

(** ** [main]: the number of codes found *)

Section n_codes_found.
Context `{Countable K}.
Implicit Types (codes_found : gmap K (gset pyval)) (Fs : list (gset pyval)).

Lemma n_codes_found_sum codes_found :
  n_codes_found codes_found =
  sum_list (size <$> (map_to_list codes_found).*2).
Proof.
  unfold n_codes_found. rewrite length_join, <- list_fmap_compose. done.
Qed.

Lemma sum_list_perm (l1 l2 : list nat) :
  l1 ≡ₚ l2 → sum_list l1 = sum_list l2.
Proof. induction 1; simpl; lia. Qed.

Lemma size_union_list_le Fs : (size (⋃ Fs) ≤ sum_list (size <$> Fs))%nat.
Proof.
  induction Fs as [|F Fs IH].
  - by rewrite union_list_nil, size_empty.
  - rewrite union_list_cons, fmap_cons.
    change (sum_list (size F :: (size <$> Fs)))
      with (size F + sum_list (size <$> Fs))%nat.
    pose proof (size_union_alt F (⋃ Fs)) as Hu.
    assert (size (⋃ Fs ∖ F) ≤ size (⋃ Fs))%nat
      by (apply subseteq_size; set_solver).
    lia.
Qed.
End n_codes_found.

(** X25. The number of codes that [main] reports is the sum, over the
    pages, of the sizes of the validated sets: a page without a code
    adds nothing, a page with the set [F] adds the size of [F], and a
    code validated on several pages is counted once for each, so that the
    number is at least the number of distinct codes. *)
Theorem n_codes_found_pages `{Countable K}
    (codes_found : gmap K (gset pyval)) (page : K) (F : gset pyval) :
  codes_found !! page = None →
  n_codes_found (<[page := F]> codes_found) =
    (size F + n_codes_found codes_found)%nat ∧
  n_codes_found (∅ : gmap K (gset pyval)) = 0%nat ∧
  (size (⋃ (map_to_list codes_found).*2) ≤ n_codes_found codes_found)%nat.
Proof.
  intros Hpage. rewrite !n_codes_found_sum. split; [|split].
  - rewrite (sum_list_perm _ (size <$> ((page, F) :: map_to_list codes_found).*2));
      [done|].
    by rewrite map_to_list_insert.
  - by rewrite map_to_list_empty.
  - apply size_union_list_le.
Qed.

Lemma n_codes_found_pages_witness :
  ({[2 := {[Some "AB12"]}]} : gmap nat (gset pyval)) !! 1 = None ∧
  n_codes_found (<[1 := {[Some "AB12"; Some "00123"]}]>
                   ({[2 := {[Some "AB12"]}]} : gmap nat (gset pyval))) =
    (size ({[Some "AB12"; Some "00123"]} : gset pyval) +
     n_codes_found ({[2 := {[Some "AB12"]}]} : gmap nat (gset pyval)))%nat ∧
  n_codes_found (∅ : gmap nat (gset pyval)) = 0%nat ∧
  (size (⋃ (map_to_list
              ({[2 := {[Some "AB12"]}]} : gmap nat (gset pyval))).*2) ≤
   n_codes_found ({[2 := {[Some "AB12"]}]} : gmap nat (gset pyval)))%nat.
Proof.
  assert (({[2 := {[Some "AB12"]}]} : gmap nat (gset pyval)) !! 1 = None)
    as Hpage by reflexivity.
  split; [exact Hpage|].
  exact (n_codes_found_pages _ 1 {[Some "AB12"; Some "00123"]} Hpage).
Defined.

(** X26. The number of codes that [main] reports for what a run returns
    is at most the number of pages times the number of valid codes. *)
Theorem n_codes_found_bound {re : Re} `{Countable K}
    (texts : gmap K string) (valid_codes : gset pyval)
    (code_pattern code_header : string) (show_tentative : bool)
    (substitutions : option substitutions_t) (r : search_result K) :
  search_codes texts valid_codes code_pattern code_header
    show_tentative substitutions = Ok r →
  (n_codes_found (codes_found_of r) ≤ size (dom texts) * size valid_codes)%nat.
Proof.
  intros [Hdom Hvalid]%search_codes_dom.
  rewrite n_codes_found_sum, <- Hdom, size_dom.
  rewrite <- (length_map_to_list (codes_found_of r)).
  assert (∀ page F, (page, F) ∈ map_to_list (codes_found_of r) →
                    (size F ≤ size valid_codes)%nat) as Hle.
  { intros page F HF%elem_of_map_to_list. apply subseteq_size.
    intros v Hv. by eapply Hvalid. }
  induction (map_to_list (codes_found_of r)) as [|[page F] l IH]; [done|].
  csimpl. specialize (Hle page F) as HF.
  assert (sum_list (size <$> l.*2) ≤ length l * size valid_codes)%nat.
  { apply IH. intros page' F' Hin. apply (Hle page'). by right. }
  assert (size F ≤ size valid_codes)%nat by (apply HF; by left). lia.
Qed.

Lemma n_codes_found_bound_witness :
  search_codes (re := Sre.engine) (K := nat)
    {[1 := "x123y456"; 2 := "no code"]} {[Some "456"]} "\d{3}" ""
    false None =
    Ok (Found {[1 := {[Some "456"]}; 2 := ∅]}) ∧
  (n_codes_found
     (codes_found_of
        (Found ({[1 := {[Some "456"]}; 2 := ∅]} : gmap nat (gset pyval)))) ≤
   size (dom ({[1 := "x123y456"; 2 := "no code"]} : gmap nat string)) *
   size ({[Some "456"]} : gset pyval))%nat.
Proof.
  assert (search_codes (re := Sre.engine) (K := nat)
            {[1 := "x123y456"; 2 := "no code"]} {[Some "456"]} "\d{3}" ""
            false None =
          Ok (Found {[1 := {[Some "456"]}; 2 := ∅]})) as Hrun.
  { vm_compute. reflexivity. }
  split; [exact Hrun|].
  exact (n_codes_found_bound _ _ _ _ _ _ _ Hrun).
Defined.
